(** * nova-ecs-render-core: the deterministic geometry layer

    A shallow embedding of the camera transform (BaseGameRenderer), the
    sprite-animation frame resolver (BaseGameRenderer) and the debug and
    physics geometry synthesis (BaseDebugRenderer, BasePhysicsDebugRenderer),
    with the properties the design document states about them. *)

From Stdlib Require Import List ZArith QArith Qcanon Qround Bool Lia Ring.
Import ListNotations.

Set Implicit Arguments.

(** ** The fixed-point collaborator

    [Fixed] and [FixedVector2] come from the package @esengine/nova-ecs-math,
    which the renderer imports and never defines.  The renderer code is
    embedded over an interface with the methods it calls.  [divide] and the
    vector [normalize] may raise inside the library, hence the [option].
    [fromNumber] is the constructor [new Fixed(n)] on a JavaScript number;
    [cosFixed a] is [new Fixed(Math.cos(a.toNumber()))], and likewise
    [sinFixed]. *)
Class FixedMath : Type := {
  Fixed : Type;
  ZERO : Fixed;
  ONE : Fixed;
  fromNumber : Q -> Fixed;
  add : Fixed -> Fixed -> Fixed;
  subtract : Fixed -> Fixed -> Fixed;
  multiply : Fixed -> Fixed -> Fixed;
  divide : Fixed -> Fixed -> option Fixed;
  negate : Fixed -> Fixed;
  floor : Fixed -> Fixed;
  equals : Fixed -> Fixed -> bool;
  lessThan : Fixed -> Fixed -> bool;
  lessThanOrEqual : Fixed -> Fixed -> bool;
  greaterThan : Fixed -> Fixed -> bool;
  cosFixed : Fixed -> Fixed;
  sinFixed : Fixed -> Fixed;
  normalizeXY : Fixed -> Fixed -> option (Fixed * Fixed)
}.

(** Outcome of a call: it returns a value or an exception escapes it. *)
Inductive outcome (A : Type) : Type :=
| Done (a : A)
| Raised.
Arguments Done {A} a.
Arguments Raised {A}.

Definition obind {A B : Type} (m : outcome A) (f : A -> outcome B) : outcome B :=
  match m with
  | Done a => f a
  | Raised => Raised
  end.

Definition ofOption {A : Type} (o : option A) : outcome A :=
  match o with
  | Some a => Done a
  | None => Raised
  end.

(** JavaScript-number records of RenderTypes.ts. *)
Record Color : Type := mkColor { cr : Q; cg : Q; cb : Q; ca : Q }.

Record Viewport : Type := mkViewport {
  vpx : Q; vpy : Q; vpwidth : Q; vpheight : Q
}.

(** Textures are opaque handles for the geometry layer. *)
Definition ITexture : Type := nat.

Record TextureStyle : Type := mkTextureStyle {
  tint : option Color; flipX : bool; flipY : bool
}.

Section Geometry.
Context {FM : FixedMath}.

Record FixedVector2 : Type := mkVec { vx : Fixed; vy : Fixed }.

Record FixedRect : Type := mkRect {
  rx : Fixed; ry : Fixed; rwidth : Fixed; rheight : Fixed
}.

Definition vadd (a b : FixedVector2) : FixedVector2 :=
  mkVec (add (vx a) (vx b)) (add (vy a) (vy b)).

Definition vsubtract (a b : FixedVector2) : FixedVector2 :=
  mkVec (subtract (vx a) (vx b)) (subtract (vy a) (vy b)).

Definition vmultiply (a : FixedVector2) (s : Fixed) : FixedVector2 :=
  mkVec (multiply (vx a) s) (multiply (vy a) s).

Definition vnormalize (a : FixedVector2) : option FixedVector2 :=
  match normalizeXY (vx a) (vy a) with
  | Some (nx, ny) => Some (mkVec nx ny)
  | None => None
  end.

Record LineStyle : Type := mkLineStyle {
  color : Color;
  thickness : Fixed;
  dashPattern : option (list Fixed)
}.

Record ShapeStyle : Type := mkShapeStyle {
  fillColor : option Color;
  strokeColor : option Color;
  strokeThickness : option Fixed
}.

Record GridStyle : Type := mkGridStyle {
  lineStyle : LineStyle;
  majorLineStyle : option LineStyle;
  majorLineInterval : option nat
}.

(** The primitive calls that reach the backend (BaseRenderer.drawLine,
    drawPolygon, drawTextureRegion, ...), in the order they are issued. *)
Inductive DrawCall : Type :=
| DrawLine (start stop : FixedVector2) (style : LineStyle)
| DrawCircle (center : FixedVector2) (radius : Fixed) (style : ShapeStyle)
| DrawRect (bounds : FixedRect) (style : ShapeStyle)
| DrawPolygon (vertices : list FixedVector2) (style : ShapeStyle)
| DrawTextureRegion (texture : ITexture) (sourceRect destRect : FixedRect)
                    (style : option TextureStyle).

(** A drawing method: the calls it issued, and how it ended.  Calls issued
    before an exception stay issued. *)
Definition Render (A : Type) : Type := (list DrawCall * outcome A)%type.

Definition ret {A : Type} (a : A) : Render A := ([], Done a).

Definition emit (c : DrawCall) : Render unit := ([c], Done tt).

Definition lift {A : Type} (m : outcome A) : Render A := ([], m).

Definition bind {A B : Type} (m : Render A) (f : A -> Render B) : Render B :=
  match m with
  | (cs, Done a) => let (cs', r) := f a in (cs ++ cs', r)
  | (cs, Raised) => (cs, Raised)
  end.

Definition calls {A : Type} (m : Render A) : list DrawCall := fst m.
Definition result {A : Type} (m : Render A) : outcome A := snd m.

(** *** Sprite animation (BaseGameRenderer) *)

Record AnimationFrame : Type := mkFrame {
  texture : ITexture;
  sourceRect : FixedRect;
  duration : Fixed
}.

Record SpriteAnimation : Type := mkAnimation {
  frames : list AnimationFrame;
  loop : bool;
  playbackSpeed : Fixed
}.

(** First loop of getCurrentAnimationFrame: the total effective duration. *)
Fixpoint totalDurationFrom (fs : list AnimationFrame) (speed total : Fixed)
  : outcome Fixed :=
  match fs with
  | [] => Done total
  | f :: rest =>
      obind (ofOption (divide (duration f) speed)) (fun d =>
      totalDurationFrom rest speed (add total d))
  end.

(** Second loop: the walk over the frames.  [None] when the loop runs off
    the end of the list. *)
Fixpoint walkFrames (fs : list AnimationFrame) (speed animTime accumulatedTime : Fixed)
  : outcome (option AnimationFrame) :=
  match fs with
  | [] => Done None
  | f :: rest =>
      obind (ofOption (divide (duration f) speed)) (fun frameDuration =>
      if lessThan animTime (add accumulatedTime frameDuration)
      then Done (Some f)
      else walkFrames rest speed animTime (add accumulatedTime frameDuration))
  end.

(** The walk followed by the closing [return frames[length - 1]]. *)
Definition frameAt (animation : SpriteAnimation) (first : AnimationFrame)
    (animTime : Fixed) : outcome (option AnimationFrame) :=
  obind (walkFrames (frames animation) (playbackSpeed animation) animTime ZERO)
    (fun found =>
       match found with
       | Some f => Done (Some f)
       | None => Done (Some (last (frames animation) first))
       end).

(** [None] is the JavaScript [null]. *)
Definition getCurrentAnimationFrame (animation : SpriteAnimation) (currentTime : Fixed)
  : outcome (option AnimationFrame) :=
  match frames animation with
  | [] => Done None
  | first :: _ =>
      obind (totalDurationFrom (frames animation) (playbackSpeed animation) ZERO)
        (fun totalDuration =>
      if equals totalDuration ZERO then Done (Some first)
      else if loop animation then
        obind (ofOption (divide currentTime totalDuration)) (fun q =>
        let quotient := floor q in
        let animTime := subtract currentTime (multiply quotient totalDuration) in
        frameAt animation first animTime)
      else if greaterThan currentTime totalDuration then
        Done (Some (last (frames animation) first))
      else frameAt animation first currentTime)
  end.

Definition drawSpriteFromAtlas (tex : ITexture) (src : FixedRect)
    (position : FixedVector2) (style : option TextureStyle) : Render unit :=
  let destRect := mkRect (vx position) (vy position) (rwidth src) (rheight src) in
  emit (DrawTextureRegion tex src destRect style).

Definition drawSprite (animation : SpriteAnimation) (position : FixedVector2)
    (currentTime : Fixed) (style : option TextureStyle) : Render unit :=
  bind (lift (getCurrentAnimationFrame animation currentTime)) (fun frame =>
  match frame with
  | Some f => drawSpriteFromAtlas (texture f) (sourceRect f) position style
  | None => ret tt
  end).

(** *** Camera (BaseGameRenderer) *)

Record CameraConfig : Type := mkCamera {
  position : FixedVector2;
  zoom : Fixed;
  rotation : Fixed
}.

(** setCamera copies the configuration into the renderer, whatever it is. *)
Definition setCamera (old config : CameraConfig) : outcome CameraConfig :=
  Done config.

Definition screenCenter (viewport : Viewport) : FixedVector2 :=
  mkVec (fromNumber (vpwidth viewport / 2)) (fromNumber (vpheight viewport / 2)).

Definition rotateBy (angle : Fixed) (v : FixedVector2) : FixedVector2 :=
  let c := cosFixed angle in
  let s := sinFixed angle in
  mkVec (subtract (multiply (vx v) c) (multiply (vy v) s))
        (add (multiply (vx v) s) (multiply (vy v) c)).

Definition worldToScreen (camera : CameraConfig) (viewport : Viewport)
    (worldPos : FixedVector2) : outcome FixedVector2 :=
  let cameraRelative := vsubtract worldPos (position camera) in
  let scaled := mkVec (multiply (vx cameraRelative) (zoom camera))
                      (multiply (vy cameraRelative) (zoom camera)) in
  let rotated :=
    if negb (equals (rotation camera) ZERO)
    then rotateBy (rotation camera) scaled
    else scaled in
  Done (vadd (screenCenter viewport) rotated).

Definition screenToWorld (camera : CameraConfig) (viewport : Viewport)
    (screenPos : FixedVector2) : outcome FixedVector2 :=
  let cameraRelative := vsubtract screenPos (screenCenter viewport) in
  let unrotated :=
    if negb (equals (rotation camera) ZERO)
    then rotateBy (negate (rotation camera)) cameraRelative
    else cameraRelative in
  obind (ofOption (divide (vx unrotated) (zoom camera))) (fun ux =>
  obind (ofOption (divide (vy unrotated) (zoom camera))) (fun uy =>
  Done (vadd (mkVec ux uy) (position camera)))).

(** *** Debug geometry (BaseRenderer, BaseDebugRenderer) *)

(** A loop that may not finish is run on fuel: the calls issued so far, and
    [None] while the loop is still running when the fuel is spent. *)
Definition Run (A : Type) : Type := (list DrawCall * option (outcome A))%type.

Definition runBind {A B : Type} (m : Run A) (f : A -> Run B) : Run B :=
  match m with
  | (cs, Some (Done a)) => let (cs', r) := f a in (cs ++ cs', r)
  | (cs, Some Raised) => (cs, Some Raised)
  | (cs, None) => (cs, None)
  end.

Definition runOf {A : Type} (m : Render A) : Run A := (fst m, Some (snd m)).

(** BaseRenderer.screenToWorld, the default that BaseDebugRenderer inherits. *)
Definition baseScreenToWorld (screenPos : FixedVector2) : outcome FixedVector2 :=
  Done screenPos.

(** BaseRenderer.getViewBounds over the renderer's screenToWorld method. *)
Definition getViewBounds (toWorld : FixedVector2 -> outcome FixedVector2)
    (viewport : Viewport) : outcome FixedRect :=
  obind (toWorld (mkVec (fromNumber (vpx viewport)) (fromNumber (vpy viewport))))
    (fun topLeft =>
  obind (toWorld (mkVec (fromNumber (vpx viewport + vpwidth viewport))
                        (fromNumber (vpy viewport + vpheight viewport))))
    (fun bottomRight =>
  Done (mkRect (vx topLeft) (vy topLeft)
               (subtract (vx bottomRight) (vx topLeft))
               (subtract (vy bottomRight) (vy topLeft))))).

(** The style of line number [lineCount] of a grid axis. *)
Definition gridLineStyle (style : GridStyle) (lineCount : nat) : LineStyle :=
  match majorLineStyle style, majorLineInterval style with
  | Some major, Some (S k) =>
      if Nat.eqb (lineCount mod (S k)) 0 then major else lineStyle style
  | _, _ => lineStyle style
  end.

Fixpoint verticalLines (fuel : nat) (bounds : FixedRect) (spacing endX : Fixed)
    (style : GridStyle) (x : Fixed) (lineCount : nat) : Run unit :=
  match fuel with
  | O => ([], None)
  | S fuel' =>
      if lessThanOrEqual x endX then
        runBind (runOf (emit (DrawLine (mkVec x (ry bounds))
                                       (mkVec x (add (ry bounds) (rheight bounds)))
                                       (gridLineStyle style lineCount))))
          (fun _ => verticalLines fuel' bounds spacing endX style
                      (add x spacing) (S lineCount))
      else ([], Some (Done tt))
  end.

Fixpoint horizontalLines (fuel : nat) (bounds : FixedRect) (spacing endY : Fixed)
    (style : GridStyle) (y : Fixed) (lineCount : nat) : Run unit :=
  match fuel with
  | O => ([], None)
  | S fuel' =>
      if lessThanOrEqual y endY then
        runBind (runOf (emit (DrawLine (mkVec (rx bounds) y)
                                       (mkVec (add (rx bounds) (rwidth bounds)) y)
                                       (gridLineStyle style lineCount))))
          (fun _ => horizontalLines fuel' bounds spacing endY style
                      (add y spacing) (S lineCount))
      else ([], Some (Done tt))
  end.

(** drawGrid; [showGrid] is debugConfig.showGrid, [toWorld] the renderer's
    screenToWorld method.  Each loop gets [fuel] iterations. *)
Definition drawGrid (fuel : nat) (showGrid : bool)
    (toWorld : FixedVector2 -> outcome FixedVector2) (viewport : Viewport)
    (spacing : Fixed) (style : GridStyle) : Run unit :=
  if negb showGrid then ([], Some (Done tt))
  else
    runBind (runOf (lift (getViewBounds toWorld viewport))) (fun bounds =>
    runBind (runOf (lift (ofOption (divide (rx bounds) spacing)))) (fun qx =>
    let startX := multiply (floor qx) spacing in
    runBind (runOf (lift (ofOption (divide (ry bounds) spacing)))) (fun qy =>
    let startY := multiply (floor qy) spacing in
    let endX := add (rx bounds) (rwidth bounds) in
    let endY := add (ry bounds) (rheight bounds) in
    runBind (verticalLines fuel bounds spacing endX style startX 0) (fun _ =>
    horizontalLines fuel bounds spacing endY style startY 0)))).

Definition solidLine (c : Color) : LineStyle := mkLineStyle c ONE None.

(** drawArrow; [axisLength] is debugConfig.axisLength.  A [Fixed] object is
    always truthy, so [headSize || ...] takes the default only when the
    argument is absent. *)
Definition drawArrow (axisLength : Fixed) (start stop : FixedVector2) (c : Color)
    (headSize : option Fixed) : Render unit :=
  bind (lift (match headSize with
              | Some h => Done h
              | None => ofOption (divide axisLength (fromNumber 10))
              end)) (fun arrowHeadSize =>
  bind (emit (DrawLine start stop (solidLine c))) (fun _ =>
  bind (lift (ofOption (vnormalize (vsubtract stop start)))) (fun direction =>
  let perpendicular := mkVec (negate (vy direction)) (vx direction) in
  let headBase := vsubtract stop (vmultiply direction arrowHeadSize) in
  bind (lift (ofOption (divide arrowHeadSize (fromNumber 2)))) (fun halfL =>
  let headLeft := vadd headBase (vmultiply perpendicular halfL) in
  bind (lift (ofOption (divide arrowHeadSize (fromNumber 2)))) (fun halfR =>
  let headRight := vsubtract headBase (vmultiply perpendicular halfR) in
  bind (emit (DrawLine stop headLeft (solidLine c))) (fun _ =>
  emit (DrawLine stop headRight (solidLine c)))))))).

(** *** Joint limits (BasePhysicsDebugRenderer) *)

Definition segments : nat := 16.

Definition jointArcPoint (center : FixedVector2) (minAngle angleStep radius : Fixed)
    (i : nat) : FixedVector2 :=
  let angle := add minAngle (multiply angleStep (fromNumber (inject_Z (Z.of_nat i)))) in
  vadd center (mkVec (multiply (cosFixed angle) radius)
                     (multiply (sinFixed angle) radius)).

(** The loop [for (let i = 0; i <= segments; i++)], [remaining] iterations
    from index [i] on. *)
Fixpoint jointArcPoints (remaining : nat) (center : FixedVector2)
    (minAngle angleStep radius : Fixed) (i : nat) : list FixedVector2 :=
  match remaining with
  | O => []
  | S r => jointArcPoint center minAngle angleStep radius i
           :: jointArcPoints r center minAngle angleStep radius (S i)
  end.

Definition jointLimitStyle (jointLimit : Color) : ShapeStyle :=
  mkShapeStyle (Some (mkColor (cr jointLimit) (cg jointLimit) (cb jointLimit) (3 # 10)))
               (Some jointLimit) (Some ONE).

(** drawJointLimits; [jointLimit] is physicsConfig.colors.jointLimit. *)
Definition drawJointLimits (jointLimit : Color) (center : FixedVector2)
    (minAngle maxAngle radius : Fixed) : Render unit :=
  let angleRange := subtract maxAngle minAngle in
  bind (lift (ofOption (divide angleRange (fromNumber (inject_Z (Z.of_nat segments))))))
    (fun angleStep =>
  let points := center :: jointArcPoints (S segments) center minAngle angleStep radius 0 in
  emit (DrawPolygon points (jointLimitStyle jointLimit))).

End Geometry.

(** ** What the design assumes of the collaborator

    The design document takes FixedMath as given, with exact add, subtract,
    multiply and divide and with comparisons.  [ExactFixed] states this: a
    commutative ring, a strict total order compatible with it, division as
    the inverse of multiplication, and [floor] as the integer part. *)
Class ExactFixed (FM : FixedMath) : Prop := {
  fixed_ring : ring_theory ZERO ONE add multiply subtract negate (@eq Fixed);
  equals_spec : forall a b, equals a b = true <-> a = b;
  greaterThan_spec : forall a b, greaterThan a b = lessThan b a;
  lessThanOrEqual_spec : forall a b, lessThanOrEqual a b = negb (lessThan b a);
  lessThan_irrefl : forall a, lessThan a a = false;
  lessThan_trans : forall a b c,
    lessThan a b = true -> lessThan b c = true -> lessThan a c = true;
  lessThan_total : forall a b,
    lessThan a b = false -> lessThan b a = false -> a = b;
  lessThan_add : forall a b c,
    lessThan a b = true -> lessThan (add a c) (add b c) = true;
  lessThan_multiply : forall a b c,
    lessThan ZERO c = true -> lessThan a b = true ->
    lessThan (multiply a c) (multiply b c) = true;
  divide_spec : forall a b q,
    b <> ZERO -> (divide a b = Some q <-> multiply q b = a);
  divide_defined : forall a b, b <> ZERO -> exists q, divide a b = Some q;
  floor_below : forall a, lessThan a (floor a) = false;
  floor_above : forall a, lessThan a (add (floor a) ONE) = true
}.

(** ** An exact instance: the rationals *)

Definition QcLessThan (a b : Qc) : bool :=
  match (a ?= b)%Qc with
  | Lt => true
  | _ => false
  end.

Definition QcDivide (a b : Qc) : option Qc :=
  if Qc_eq_dec b 0%Qc then None else Some (a / b)%Qc.

Definition QcFloor (a : Qc) : Qc := Q2Qc (inject_Z (Qfloor a)).

(** A point of the unit circle for every angle, by the rational
    parametrisation with parameter [a / 2]: even in [a] for the cosine, odd
    for the sine. *)
Definition QcCos (a : Qc) : Qc :=
  let u := (a / Q2Qc 2)%Qc in ((1 - u * u) / (1 + u * u))%Qc.

Definition QcSin (a : Qc) : Qc :=
  let u := (a / Q2Qc 2)%Qc in ((Q2Qc 2 * u) / (1 + u * u))%Qc.

Definition QcAbs (a : Qc) : Qc := if QcLessThan a 0%Qc then (- a)%Qc else a.

(** The direction of a vector, scaled by its larger component where the
    rationals have no square root; exact on the axes, and the zero vector
    for the zero vector. *)
Definition QcNormalize (x y : Qc) : option (Qc * Qc) :=
  let m := if QcLessThan (QcAbs x) (QcAbs y) then QcAbs y else QcAbs x in
  if Qc_eq_dec m 0%Qc then Some (0%Qc, 0%Qc) else Some ((x / m)%Qc, (y / m)%Qc).

(** Modelled from the spec: the external collaborator FixedMath (the package
    @esengine/nova-ecs-math, not part of this repository), which the design
    document describes as deterministic scalars with exact add, subtract,
    multiply and divide, comparisons and trigonometric approximations.
    Division by zero is an error, as the design's failure semantics say. *)
#[export] Instance QcFixed : FixedMath := {|
  Fixed := Qc;
  ZERO := 0%Qc;
  ONE := 1%Qc;
  fromNumber := Q2Qc;
  add := Qcplus;
  subtract := Qcminus;
  multiply := Qcmult;
  divide := QcDivide;
  negate := Qcopp;
  floor := QcFloor;
  equals := Qc_eq_bool;
  lessThan := QcLessThan;
  lessThanOrEqual := fun a b => negb (QcLessThan b a);
  greaterThan := fun a b => QcLessThan b a;
  cosFixed := QcCos;
  sinFixed := QcSin;
  normalizeXY := QcNormalize
|}.

(** ** Sample data on the exact instance *)

Definition unitRect : @FixedRect QcFixed := mkRect 0%Qc 0%Qc 1%Qc 1%Qc.

(** Three frames of one second each; the texture handle is the index. *)
Definition threeFrames : list (@AnimationFrame QcFixed) :=
  [mkFrame 0%nat unitRect 1%Qc; mkFrame 1%nat unitRect 1%Qc; mkFrame 2%nat unitRect 1%Qc].

Definition clip (looping : bool) : @SpriteAnimation QcFixed :=
  mkAnimation threeFrames looping 1%Qc.

Definition emptyClip (looping : bool) : @SpriteAnimation QcFixed :=
  mkAnimation [] looping 1%Qc.

Definition origin : @FixedVector2 QcFixed := mkVec 0%Qc 0%Qc.

(** The data-model invariant of an animation: a positive playback speed and
    no negative frame duration. *)
Definition validTiming {FM : FixedMath} (fs : list AnimationFrame) (speed : Fixed) : Prop :=
  lessThan ZERO speed = true /\
  forall g, In g fs -> lessThan (duration g) ZERO = false.

(** World to screen and back. *)
Definition roundTrip {FM : FixedMath} (camera : CameraConfig) (viewport : Viewport)
    (p : FixedVector2) : outcome FixedVector2 :=
  obind (worldToScreen camera viewport p) (screenToWorld camera viewport).

(** What is left of the round trip when rotation and recentring cancel:
    the camera-relative point multiplied by the zoom, divided by it again,
    and moved back by the camera position. *)
Definition zoomThenUnzoom {FM : FixedMath} (camera : CameraConfig) (p : FixedVector2)
  : outcome FixedVector2 :=
  let rel := vsubtract p (position camera) in
  obind (ofOption (divide (multiply (vx rel) (zoom camera)) (zoom camera))) (fun ux =>
  obind (ofOption (divide (multiply (vy rel) (zoom camera)) (zoom camera))) (fun uy =>
  Done (vadd (mkVec ux uy) (position camera)))).

(** The sine and cosine at [r] and [-r] without rounding error. *)
Definition exactTrig {FM : FixedMath} (r : Fixed) : Prop :=
  cosFixed (negate r) = cosFixed r /\
  sinFixed (negate r) = negate (sinFixed r) /\
  add (multiply (cosFixed r) (cosFixed r)) (multiply (sinFixed r) (sinFixed r)) = ONE.

Definition screen800x600 : Viewport := mkViewport 0 0 800 600.

Definition sampleCamera (z r : Qc) : @CameraConfig QcFixed :=
  mkCamera (mkVec 1%Qc 1%Qc) z r.

Definition samplePoint : @FixedVector2 QcFixed := mkVec (Q2Qc 3) (Q2Qc 4).

Definition red : Color := mkColor 1 0 0 1.

Definition plainGrid : @GridStyle QcFixed := mkGridStyle (solidLine red) None None.

(** A view from x = -2.4 to x = 5.6 and from y = 0 to y = 6. *)
Definition gridViewport : Viewport := mkViewport (-24 # 10) 0 8 6.

(** The x-coordinates of the vertical lines among the calls, in order. *)
Definition verticalXs (cs : list (@DrawCall QcFixed)) : list Q :=
  flat_map (fun c =>
              match c with
              | DrawLine a b _ => if Qc_eq_bool (vx a) (vx b) then [this (vx a)] else []
              | _ => []
              end) cs.

(** The number [Math.PI] as a fixed value. *)
Definition fixedPi : Qc := Q2Qc (3141592653589793 # 1000000000000000).

(** ** The rest of the renderers *)

From Stdlib Require String Ascii DecimalString DecimalNat.

Section Renderers.
Context {FM : FixedMath}.

(** *** Animations built by createAnimation (BaseGameRenderer)

    The [name] given to createAnimation is stored and never read. *)
Definition createAnimation (tex : ITexture) (frameRects : list FixedRect)
    (frameDuration : Fixed) (looping : bool) : SpriteAnimation :=
  mkAnimation (map (fun rect => mkFrame tex rect frameDuration) frameRects)
              looping ONE.

(** *** Transform2D (RenderTypes.ts)

    [FixedVector2.ZERO] and [FixedVector2.ONE] are the vectors of the
    library's zero and one; [negate] on a vector negates both components. *)
Definition vZERO : FixedVector2 := mkVec ZERO ZERO.
Definition vONE : FixedVector2 := mkVec ONE ONE.

Definition vnegate (a : FixedVector2) : FixedVector2 :=
  mkVec (negate (vx a)) (negate (vy a)).

Record Transform2D : Type := mkTransform {
  tposition : FixedVector2;
  trotation : Fixed;
  tscale : FixedVector2
}.

Definition identityTransform : Transform2D := mkTransform vZERO ZERO vONE.

Definition tmultiply (a b : Transform2D) : Transform2D :=
  mkTransform (vadd (tposition a) (tposition b))
              (add (trotation a) (trotation b))
              (mkVec (multiply (vx (tscale a)) (vx (tscale b)))
                     (multiply (vy (tscale a)) (vy (tscale b)))).

Definition tinverse (a : Transform2D) : outcome Transform2D :=
  obind (ofOption (divide ONE (vx (tscale a)))) (fun ix =>
  obind (ofOption (divide ONE (vy (tscale a)))) (fun iy =>
  Done (mkTransform (vnegate (tposition a)) (negate (trotation a)) (mkVec ix iy)))).

Definition transformPoint (a : Transform2D) (point : FixedVector2) : FixedVector2 :=
  let scaled := mkVec (multiply (vx point) (vx (tscale a)))
                      (multiply (vy point) (vy (tscale a))) in
  let turned :=
    if negb (equals (trotation a) ZERO)
    then rotateBy (trotation a) scaled
    else scaled in
  vadd turned (tposition a).

(** *** The transform stack (BaseRenderer)

    The top of the stack is the head of the list.  The second component of
    a result lists the transforms handed to the backend hook
    [applyTransform]. *)
Record TransformState : Type := mkTransformState {
  transformStack : list Transform2D;
  currentTransform : Transform2D
}.

Definition pushTransform (st : TransformState) (t : Transform2D)
  : TransformState * list Transform2D :=
  let current := tmultiply (currentTransform st) t in
  (mkTransformState (currentTransform st :: transformStack st) current, [current]).

Definition popTransform (st : TransformState) : TransformState * list Transform2D :=
  match transformStack st with
  | previous :: below => (mkTransformState below previous, [previous])
  | [] => (st, [])
  end.

(** *** Statistics (BaseRenderer)

    Every primitive starts with incrementDrawCall; drawPolygon also counts
    vertices and triangles, drawTextureRegion a texture binding. *)
Record RenderStatistics : Type := mkStatistics {
  drawCalls : nat;
  triangles : nat;
  vertices : nat;
  textureBinds : nat;
  frameTime : Q
}.

Definition resetStatistics : RenderStatistics := mkStatistics 0 0 0 0 0.

Definition countCall (s : RenderStatistics) (c : DrawCall) : RenderStatistics :=
  match c with
  | DrawPolygon vs _ =>
      mkStatistics (S (drawCalls s))
                   (triangles s + (length vs - 2))
                   (vertices s + length vs)
                   (textureBinds s) (frameTime s)
  | DrawTextureRegion _ _ _ _ =>
      mkStatistics (S (drawCalls s)) (triangles s) (vertices s)
                   (S (textureBinds s)) (frameTime s)
  | _ =>
      mkStatistics (S (drawCalls s)) (triangles s) (vertices s)
                   (textureBinds s) (frameTime s)
  end.

(** The statistics after the calls of a drawing method, in order. *)
Definition countCalls (s : RenderStatistics) (cs : list DrawCall) : RenderStatistics :=
  fold_left countCall cs s.

End Renderers.

(** *** Layers and render state (RenderTypes.ts, BaseRenderer) *)

Inductive BlendMode : Type :=
| BlendNormal | BlendAdd | BlendMultiply | BlendScreen
| BlendOverlay | BlendDarken | BlendLighten.

Record RenderLayer : Type := mkLayer {
  layerId : String.string;
  depth : Q;
  visible : bool
}.

Section RenderStates.
Context {FM : FixedMath}.

Record RenderState : Type := mkRenderState {
  blendMode : BlendMode;
  opacity : Q;
  clipRect : option FixedRect;
  layer : option RenderLayer
}.

(** The top of the stack is the head of the list.  The second component of
    a result lists the states handed to the backend hook
    [onSetRenderState]. *)
Record RenderStateStore : Type := mkRenderStateStore {
  renderStateStack : list RenderState;
  currentRenderState : RenderState
}.

Definition setRenderState (st : RenderStateStore) (state : RenderState)
  : RenderStateStore * list RenderState :=
  (mkRenderStateStore (renderStateStack st) state, [state]).

Definition pushRenderState (st : RenderStateStore) : RenderStateStore :=
  mkRenderStateStore (currentRenderState st :: renderStateStack st)
                     (currentRenderState st).

Definition popRenderState (st : RenderStateStore)
  : RenderStateStore * list RenderState :=
  match renderStateStack st with
  | previous :: below => setRenderState (mkRenderStateStore below (currentRenderState st)) previous
  | [] => (st, [])
  end.

(** Calls in a row. *)
Fixpoint pushTransforms (st : TransformState) (ts : list Transform2D) : TransformState :=
  match ts with
  | [] => st
  | t :: rest => pushTransforms (fst (pushTransform st t)) rest
  end.

Fixpoint popTransforms (n : nat) (st : TransformState) : TransformState :=
  match n with
  | O => st
  | S k => popTransforms k (fst (popTransform st))
  end.

End RenderStates.


(** ** More sample data on the exact instance *)

Definition sampleTransform : @Transform2D QcFixed :=
  mkTransform samplePoint 1%Qc (@mkVec QcFixed (Q2Qc 2) (Q2Qc 2)).

(** *** More debug geometry (BaseDebugRenderer) *)

Section DebugShapes.
Context {FM : FixedMath}.

(** drawAxis; [showAxis], [axisLength], [axisX] and [axisY] are read from
    debugConfig. *)
Definition drawAxis (showAxis : bool) (axisLength : Fixed) (axisX axisY : Color)
    (origin : FixedVector2) (scale : Fixed) : Render unit :=
  if negb showAxis then ret tt
  else
    bind (drawArrow axisLength origin (vadd origin (mkVec scale ZERO)) axisX
            (Some (fromNumber (2 # 10)))) (fun _ =>
    drawArrow axisLength origin (vadd origin (mkVec ZERO scale)) axisY
      (Some (fromNumber (2 # 10)))).

Definition drawCrosshair (position : FixedVector2) (size : Fixed) (c : Color)
  : Render unit :=
  bind (lift (ofOption (divide size (fromNumber 2)))) (fun halfSize =>
  bind (emit (DrawLine (mkVec (subtract (vx position) halfSize) (vy position))
                       (mkVec (add (vx position) halfSize) (vy position))
                       (solidLine c))) (fun _ =>
  emit (DrawLine (mkVec (vx position) (subtract (vy position) halfSize))
                 (mkVec (vx position) (add (vy position) halfSize))
                 (solidLine c)))).

Definition strokeOnly (c : Color) : ShapeStyle := mkShapeStyle None (Some c) (Some ONE).
Definition fillOnly (c : Color) : ShapeStyle := mkShapeStyle (Some c) None None.

Definition drawBounds (showBounds : bool) (bounds : FixedRect) (c : Color)
  : Render unit :=
  if negb showBounds then ret tt else emit (DrawRect bounds (strokeOnly c)).

(** The x-coordinate reached from [x] after [i] steps of the grid loop. *)
Definition stepFrom (x spacing : Fixed) (i : nat) : Fixed :=
  Nat.iter i (fun v => add v spacing) x.

(** *** Physics debug geometry (BasePhysicsDebugRenderer) *)

Record PhysicsColors : Type := mkPhysicsColors {
  staticBodyColor : Color;
  kinematicBodyColor : Color;
  dynamicBodyColor : Color;
  sleepingBodyColor : Color;
  shapeColor : Color;
  wireframeColor : Color;
  aabbColor : Color;
  centerOfMassColor : Color;
  jointColor : Color;
  jointLimitColor : Color;
  jointAnchorColor : Color;
  contactColor : Color;
  contactNormalColor : Color;
  contactImpulseColor : Color;
  frictionImpulseColor : Color;
  forceColor : Color;
  velocityColor : Color;
  accelerationColor : Color;
  transformColor : Color;
  localAxisColor : Color
}.

Record PhysicsDebugConfig : Type := mkPhysicsDebugConfig {
  showBodies : bool;
  showSleepingBodies : bool;
  showStaticBodies : bool;
  showKinematicBodies : bool;
  showDynamicBodies : bool;
  showShapes : bool;
  showWireframes : bool;
  showAABBs : bool;
  showCenterOfMass : bool;
  showJoints : bool;
  showJointLimits : bool;
  showJointAnchors : bool;
  showContacts : bool;
  showContactNormals : bool;
  showContactImpulses : bool;
  showFrictionImpulses : bool;
  showForces : bool;
  showVelocities : bool;
  showAccelerations : bool;
  showTransforms : bool;
  showLocalAxes : bool;
  colors : PhysicsColors;
  forceScale : Fixed;
  velocityScale : Fixed;
  accelerationScale : Fixed;
  impulseScale : Fixed;
  contactPointSize : Fixed;
  jointAnchorSize : Fixed;
  centerOfMassSize : Fixed;
  arrowHeadSize : Fixed
}.


(** The library constant [Fixed.TWO], taken as [new Fixed(2)]. *)
Definition TWO : Fixed := fromNumber 2.

Section PhysicsRenderer.
(** [axisLength] is debugConfig.axisLength of the debug renderer below the
    physics renderer; [cfg] is physicsConfig. *)
Variable axisLength : Fixed.
Variable cfg : PhysicsDebugConfig.

Definition drawCenterOfMass (position : FixedVector2) : Render unit :=
  drawCrosshair position (centerOfMassSize cfg) (centerOfMassColor (colors cfg)).

Definition drawBodyTransform (position : FixedVector2) (rotation : Fixed)
  : Render unit :=
  let scale := multiply (centerOfMassSize cfg) (fromNumber 2) in
  if showLocalAxes cfg then
    let c := cosFixed rotation in
    let s := sinFixed rotation in
    let xAxis := vmultiply (mkVec c s) scale in
    bind (drawArrow axisLength position (vadd position xAxis)
            (localAxisColor (colors cfg)) None) (fun _ =>
    let yAxis := vmultiply (mkVec (negate s) c) scale in
    drawArrow axisLength position (vadd position yAxis)
      (localAxisColor (colors cfg)) None)
  else ret tt.

Definition drawBodyAABB (lo hi : FixedVector2) : Render unit :=
  let bounds := mkRect (vx lo) (vy lo)
                       (subtract (vx hi) (vx lo)) (subtract (vy hi) (vy lo)) in
  emit (DrawRect bounds (strokeOnly (aabbColor (colors cfg)))).

Definition colliderStyle (filled : bool) : ShapeStyle :=
  if filled then fillOnly (shapeColor (colors cfg))
  else strokeOnly (shapeColor (colors cfg)).

Definition drawCircleCollider (center : FixedVector2) (radius : Fixed) (filled : bool)
  : Render unit :=
  emit (DrawCircle center radius (colliderStyle filled)).

Definition drawBoxCollider (center size : FixedVector2) (rotation : Fixed)
    (filled : bool) : Render unit :=
  bind (lift (ofOption (divide (vx size) (fromNumber 2)))) (fun hx =>
  bind (lift (ofOption (divide (vy size) (fromNumber 2)))) (fun hy =>
  let corners := [mkVec (negate hx) (negate hy); mkVec hx (negate hy);
                  mkVec hx hy; mkVec (negate hx) hy] in
  let worldCorners := map (fun corner => vadd center (rotateBy rotation corner)) corners in
  emit (DrawPolygon worldCorners (colliderStyle filled)))).

Definition drawPolygonCollider (vertices : list FixedVector2) (filled : bool)
  : Render unit :=
  emit (DrawPolygon vertices (colliderStyle filled)).

Definition drawEdgeCollider (start stop : FixedVector2) : Render unit :=
  emit (DrawLine start stop (mkLineStyle (shapeColor (colors cfg)) TWO None)).




(** drawVector; a [Fixed] scale is always truthy, so it is applied whenever
    it is given. *)
Definition drawVector (start vector : FixedVector2) (c : Color) (scale : option Fixed)
  : Render unit :=
  let scaledVector :=
    match scale with
    | Some s => vmultiply vector s
    | None => vector
    end in
  let stop := vadd start scaledVector in
  drawArrow axisLength start stop c (Some (arrowHeadSize cfg)).


Definition drawContactImpulse (point impulse : FixedVector2) : Render unit :=
  drawVector point impulse (contactImpulseColor (colors cfg)) None.

Definition drawVelocity (position velocity : FixedVector2) : Render unit :=
  drawVector position (vmultiply velocity (velocityScale cfg))
             (velocityColor (colors cfg)) None.

Definition drawAcceleration (position acceleration : FixedVector2) : Render unit :=
  drawVector position (vmultiply acceleration (accelerationScale cfg))
             (accelerationColor (colors cfg)) None.

Definition drawForceVector (position force : FixedVector2) : Render unit :=
  drawVector position (vmultiply force (forceScale cfg))
             (forceColor (colors cfg)) None.




(** One segment of the circle of drawAngularVelocity. *)
Definition angularSegment (position : FixedVector2) (radius angleStep : Fixed)
    (i : nat) : DrawCall :=
  let angle1 := multiply angleStep (fromNumber (inject_Z (Z.of_nat i))) in
  let angle2 := multiply angleStep (fromNumber (inject_Z (Z.of_nat (i + 1)))) in
  let point1 := vadd position (mkVec (multiply (cosFixed angle1) radius)
                                     (multiply (sinFixed angle1) radius)) in
  let point2 := vadd position (mkVec (multiply (cosFixed angle2) radius)
                                     (multiply (sinFixed angle2) radius)) in
  DrawLine point1 point2 (solidLine (velocityColor (colors cfg))).

(** The loop [for (let i = 0; i < segments; i++)], [remaining] iterations
    from index [i] on. *)
Fixpoint angularSegments (remaining : nat) (position : FixedVector2)
    (radius angleStep : Fixed) (i : nat) : Render unit :=
  match remaining with
  | O => ret tt
  | S r =>
      bind (emit (angularSegment position radius angleStep i)) (fun _ =>
      angularSegments r position radius angleStep (S i))
  end.

(** drawAngularVelocity; [twoPi] is the number [2 * Math.PI].  The angular
    velocity itself is not read. *)
Definition drawAngularVelocity (twoPi : Q) (position : FixedVector2)
    (angularVelocity : Fixed) : Render unit :=
  let radius := multiply (centerOfMassSize cfg) (fromNumber (15 # 10)) in
  bind (lift (ofOption (divide (fromNumber twoPi) (fromNumber 12)))) (fun angleStep =>
  angularSegments 12 position radius angleStep 0).

(** What extractBodyInfo hands back for a body. *)
Inductive BodyType : Type :=
| StaticBody | KinematicBody | DynamicBody | OtherBody.

Record BodyInfo : Type := mkBodyInfo {
  bodyType : BodyType;
  sleeping : bool;
  bodyPosition : FixedVector2;
  bodyRotation : Fixed;
  bodyCenterOfMass : FixedVector2;
  bodyAabb : option (FixedVector2 * FixedVector2);
  bodyVelocity : option FixedVector2;
  bodyForce : option FixedVector2;
  fixtureCount : option nat
}.

(** drawFixture of the base class draws nothing. *)
Definition drawFixture (c : Color) : Render unit := ret tt.

Fixpoint drawFixtures (n : nat) (c : Color) : Render unit :=
  match n with
  | O => ret tt
  | S k => bind (drawFixture c) (fun _ => drawFixtures k c)
  end.

(** The part of drawRigidBody after the colour is chosen. *)
Definition drawBodyParts (info : BodyInfo) (bodyColor : Color) : Render unit :=
  bind (if showTransforms cfg
        then drawBodyTransform (bodyPosition info) (bodyRotation info)
        else ret tt) (fun _ =>
  bind (if showCenterOfMass cfg
        then drawCenterOfMass (bodyCenterOfMass info)
        else ret tt) (fun _ =>
  bind (match showAABBs cfg, bodyAabb info with
        | true, Some (lo, hi) => drawBodyAABB lo hi
        | _, _ => ret tt
        end) (fun _ =>
  bind (match showVelocities cfg, bodyVelocity info with
        | true, Some v => drawVelocity (bodyPosition info) v
        | _, _ => ret tt
        end) (fun _ =>
  bind (match showForces cfg, bodyForce info with
        | true, Some f => drawForceVector (bodyPosition info) f
        | _, _ => ret tt
        end) (fun _ =>
  match showShapes cfg, fixtureCount info with
  | true, Some n => drawFixtures n bodyColor
  | _, _ => ret tt
  end))))).

(** drawRigidBody; [bodyInfo] is the result of the backend's
    extractBodyInfo, [None] for null. *)
Definition drawRigidBody (bodyInfo : option BodyInfo) : Render unit :=
  if negb (showBodies cfg) then ret tt
  else
    match bodyInfo with
    | None => ret tt
    | Some info =>
        match bodyType info with
        | StaticBody =>
            if negb (showStaticBodies cfg) then ret tt
            else drawBodyParts info (staticBodyColor (colors cfg))
        | KinematicBody =>
            if negb (showKinematicBodies cfg) then ret tt
            else drawBodyParts info (kinematicBodyColor (colors cfg))
        | DynamicBody =>
            if negb (showDynamicBodies cfg) then ret tt
            else drawBodyParts info
                   (if sleeping info && showSleepingBodies cfg
                    then sleepingBodyColor (colors cfg)
                    else dynamicBodyColor (colors cfg))
        | OtherBody => ret tt
        end
    end.

End PhysicsRenderer.
End DebugShapes.

(** ** Reading the calls of a drawing method *)

Section Readers.
Context {FM : FixedMath}.

Definition lineStart (c : DrawCall) : option FixedVector2 :=
  match c with
  | DrawLine a _ _ => Some a
  | _ => None
  end.

Definition lineStop (c : DrawCall) : option FixedVector2 :=
  match c with
  | DrawLine _ b _ => Some b
  | _ => None
  end.



End Readers.

(** ** The default physics configuration (IPhysicsDebugRenderer.ts) *)

Definition defaultPhysicsColors : PhysicsColors :=
  mkPhysicsColors
    (mkColor (5 # 10) (9 # 10) (5 # 10) (8 # 10))
    (mkColor (5 # 10) (5 # 10) (9 # 10) (8 # 10))
    (mkColor (9 # 10) (7 # 10) (7 # 10) (8 # 10))
    (mkColor (6 # 10) (6 # 10) (6 # 10) (8 # 10))
    (mkColor (9 # 10) (9 # 10) (9 # 10) (8 # 10))
    (mkColor 1 1 1 1)
    (mkColor 1 0 1 (8 # 10))
    (mkColor 1 0 0 1)
    (mkColor (5 # 10) (8 # 10) (8 # 10) 1)
    (mkColor (8 # 10) (8 # 10) (3 # 10) 1)
    (mkColor 0 1 0 1)
    (mkColor 1 0 0 1)
    (mkColor (9 # 10) (9 # 10) (4 # 10) 1)
    (mkColor (9 # 10) (3 # 10) (3 # 10) 1)
    (mkColor (9 # 10) (9 # 10) (3 # 10) 1)
    (mkColor 1 (4 # 10) (4 # 10) 1)
    (mkColor (4 # 10) (4 # 10) 1 1)
    (mkColor 1 (4 # 10) 1 1)
    (mkColor 1 1 1 1)
    (mkColor (8 # 10) (8 # 10) (8 # 10) 1).

Definition DEFAULT_PHYSICS_DEBUG_CONFIG {FM : FixedMath} : PhysicsDebugConfig :=
  mkPhysicsDebugConfig
    true true true true true
    true false false false
    true true true
    false false false false
    false false false
    false false
    defaultPhysicsColors
    (fromNumber (1 # 10)) (fromNumber (5 # 10)) (fromNumber (1 # 10)) (fromNumber 1)
    (fromNumber (1 # 10)) (fromNumber (1 # 10)) (fromNumber (1 # 10)) (fromNumber (1 # 10)).

(** The default configuration with every switch on. *)
Definition everythingShown {FM : FixedMath} : PhysicsDebugConfig :=
  mkPhysicsDebugConfig
    true true true true true
    true true true true
    true true true
    true true true true
    true true true
    true true
    defaultPhysicsColors
    (fromNumber (1 # 10)) (fromNumber (5 # 10)) (fromNumber (1 # 10)) (fromNumber 1)
    (fromNumber (1 # 10)) (fromNumber (1 # 10)) (fromNumber (1 # 10)) (fromNumber (1 # 10)).

(** The number [2 * Math.PI]: the double nearest to twice pi. *)
Definition twoPiNumber : Q := 884279719003555 # 140737488355328.



(** ** Registries (BaseGameRenderer)

    A JavaScript [Map] with string keys is an association list in insertion
    order: [set] replaces the value of a present key where it stands and
    appends an absent one, [delete] removes the entry. *)

Fixpoint mapGet {V : Type} (k : String.string) (m : list (String.string * V)) : option V :=
  match m with
  | [] => None
  | (k', v) :: rest => if String.eqb k k' then Some v else mapGet k rest
  end.

Fixpoint mapSet {V : Type} (k : String.string) (v : V) (m : list (String.string * V))
  : list (String.string * V) :=
  match m with
  | [] => [(k, v)]
  | (k', v') :: rest =>
      if String.eqb k k' then (k, v) :: rest else (k', v') :: mapSet k v rest
  end.

Fixpoint mapDelete {V : Type} (k : String.string) (m : list (String.string * V))
  : list (String.string * V) :=
  match m with
  | [] => []
  | (k', v') :: rest =>
      if String.eqb k k' then rest else (k', v') :: mapDelete k rest
  end.

Definition mapKeys {V : Type} (m : list (String.string * V)) : list String.string :=
  map fst m.

Definition mapValues {V : Type} (m : list (String.string * V)) : list V :=
  map snd m.

(** *** Layers *)

(** What a layer method tells the backend through the hooks onLayerCreated,
    onLayerRemoved, onLayerVisibilityChanged and onLayerDepthChanged. *)
Inductive LayerEvent : Type :=
| LayerCreated (l : RenderLayer)
| LayerRemoved (id : String.string)
| LayerVisibilityChanged (id : String.string) (shown : bool)
| LayerDepthChanged (id : String.string) (d : Q).

Definition LayerMap : Type := list (String.string * RenderLayer).

Definition createLayer (layers : LayerMap) (id : String.string) (d : Q)
  : LayerMap * RenderLayer * list LayerEvent :=
  let l := mkLayer id d true in
  (mapSet id l layers, l, [LayerCreated l]).

Definition removeLayer (layers : LayerMap) (id : String.string)
  : LayerMap * list LayerEvent :=
  match mapGet id layers with
  | Some _ => (mapDelete id layers, [LayerRemoved id])
  | None => (layers, [])
  end.

Definition setLayerVisible (layers : LayerMap) (id : String.string) (shown : bool)
  : LayerMap * list LayerEvent :=
  match mapGet id layers with
  | Some l => (mapSet id (mkLayer (layerId l) (depth l) shown) layers,
               [LayerVisibilityChanged id shown])
  | None => (layers, [])
  end.

Definition setLayerDepth (layers : LayerMap) (id : String.string) (d : Q)
  : LayerMap * list LayerEvent :=
  match mapGet id layers with
  | Some l => (mapSet id (mkLayer (layerId l) d (visible l)) layers,
               [LayerDepthChanged id d])
  | None => (layers, [])
  end.

(** [Array.prototype.sort] with the comparator [a.depth - b.depth]: the
    sort is stable, so its result is the one of the stable insertion
    sort. *)
Fixpoint insertByDepth (l : RenderLayer) (sorted : list RenderLayer) : list RenderLayer :=
  match sorted with
  | [] => [l]
  | y :: rest =>
      if Qle_bool (depth l) (depth y) then l :: y :: rest
      else y :: insertByDepth l rest
  end.

Definition sortByDepth (ls : list RenderLayer) : list RenderLayer :=
  fold_right insertByDepth [] ls.

Definition getLayers (layers : LayerMap) : list RenderLayer :=
  sortByDepth (mapValues layers).

(** Every layer is stored under its own id, and no id is stored twice. *)
Definition layersWellKeyed (layers : LayerMap) : Prop :=
  NoDup (mapKeys layers) /\
  forall k l, In (k, l) layers -> layerId l = k.

(** The calls on the layers of a renderer. *)
Inductive LayerOp : Type :=
| CreateLayer (id : String.string) (d : Q)
| RemoveLayer (id : String.string)
| SetLayerVisible (id : String.string) (shown : bool)
| SetLayerDepth (id : String.string) (d : Q).

Definition applyLayerOp (layers : LayerMap) (op : LayerOp) : LayerMap :=
  match op with
  | CreateLayer id d => fst (fst (createLayer layers id d))
  | RemoveLayer id => fst (removeLayer layers id)
  | SetLayerVisible id shown => fst (setLayerVisible layers id shown)
  | SetLayerDepth id d => fst (setLayerDepth layers id d)
  end.

(** *** Lights *)

Inductive Falloff : Type := FalloffLinear | FalloffQuadratic | FalloffConstant.

Section LightIds.
Import String.

(** The id [light_<n>] that addLight builds from the counter. *)
Definition lightId (n : nat) : String.string :=
  String.append "light_"%string (DecimalString.NilEmpty.string_of_uint (Nat.to_uint n)).

End LightIds.

Section Lights.
Context {FM : FixedMath}.

Record LightConfig : Type := mkLight {
  lightPosition : FixedVector2;
  lightColor : Color;
  intensity : Fixed;
  lightRadius : Fixed;
  falloff : Falloff;
  castShadows : bool
}.

(** [Partial<LightConfig>]: [None] for a key that is absent. *)
Record LightPatch : Type := mkLightPatch {
  patchPosition : option FixedVector2;
  patchColor : option Color;
  patchIntensity : option Fixed;
  patchRadius : option Fixed;
  patchFalloff : option Falloff;
  patchCastShadows : option bool
}.

Definition orKeep {A : Type} (patch : option A) (old : A) : A :=
  match patch with
  | Some a => a
  | None => old
  end.

(** [{ ...existing, ...config }] *)
Definition mergeLight (existing : LightConfig) (config : LightPatch) : LightConfig :=
  mkLight (orKeep (patchPosition config) (lightPosition existing))
          (orKeep (patchColor config) (lightColor existing))
          (orKeep (patchIntensity config) (intensity existing))
          (orKeep (patchRadius config) (lightRadius existing))
          (orKeep (patchFalloff config) (falloff existing))
          (orKeep (patchCastShadows config) (castShadows existing)).

Record LightStore : Type := mkLightStore {
  lights : list (String.string * LightConfig);
  lightIdCounter : nat
}.

Definition noLights : LightStore := mkLightStore [] 0.

Inductive LightEvent : Type :=
| LightAdded (id : String.string) (l : LightConfig)
| LightRemoved (id : String.string)
| LightUpdated (id : String.string) (l : LightConfig).

Definition addLight (st : LightStore) (light : LightConfig)
  : LightStore * String.string * list LightEvent :=
  let id := lightId (lightIdCounter st) in
  (mkLightStore (mapSet id light (lights st)) (S (lightIdCounter st)),
   id, [LightAdded id light]).

Definition removeLight (st : LightStore) (id : String.string)
  : LightStore * list LightEvent :=
  match mapGet id (lights st) with
  | Some _ => (mkLightStore (mapDelete id (lights st)) (lightIdCounter st),
               [LightRemoved id])
  | None => (st, [])
  end.

Definition updateLight (st : LightStore) (id : String.string) (config : LightPatch)
  : LightStore * list LightEvent :=
  match mapGet id (lights st) with
  | Some existing =>
      let updated := mergeLight existing config in
      (mkLightStore (mapSet id updated (lights st)) (lightIdCounter st),
       [LightUpdated id updated])
  | None => (st, [])
  end.

(** The calls on the lights of a renderer. *)
Inductive LightOp : Type :=
| AddLight (light : LightConfig)
| RemoveLight (id : String.string)
| UpdateLight (id : String.string) (config : LightPatch).

(** A run of calls: the store it ends in and the ids addLight returned, the
    latest first. *)
Fixpoint runLightOps (st : LightStore) (returned : list String.string)
    (ops : list LightOp) : LightStore * list String.string :=
  match ops with
  | [] => (st, returned)
  | AddLight light :: rest =>
      let '(st', id, _) := addLight st light in
      runLightOps st' (id :: returned) rest
  | RemoveLight id :: rest => runLightOps (fst (removeLight st id)) returned rest
  | UpdateLight id config :: rest =>
      runLightOps (fst (updateLight st id config)) returned rest
  end.

End Lights.

(** Relation of the sorted layers. *)
Definition depthLe (a b : RenderLayer) : Prop := (depth a <= depth b)%Q.

Section SampleNames.
Import String.

Definition uiId : String.string := "ui"%string.
Definition gameplayId : String.string := "gameplay"%string.

End SampleNames.

Definition sampleLayers : LayerMap :=
  [(gameplayId, mkLayer gameplayId 0 true); (uiId, mkLayer uiId 10 false)].

Definition sampleLight : @LightConfig QcFixed :=
  mkLight origin red 1%Qc (Q2Qc 5) FalloffLinear false.

(** The ids in use were all returned by addLight, the ids returned are
    pairwise distinct and were built from counts below the counter. *)
Definition lightsTracked {FM : FixedMath} (st : LightStore)
    (returned : list String.string) : Prop :=
  (forall k, In k (mapKeys (lights st)) -> In k returned) /\
  (forall k, In k returned -> exists n, (n < lightIdCounter st)%nat /\ k = lightId n) /\
  NoDup returned.

(** ** Configuration patches (BaseDebugRenderer, BasePhysicsDebugRenderer)

    A configuration object is its nested colour table and its other keys.
    The object spread [{ ...a, ...b }] sets every key of [b] in a copy of
    [a], in the order of [b]. *)

Definition spread {V : Type} (a b : list (String.string * V)) : list (String.string * V) :=
  fold_left (fun acc kv => mapSet (fst kv) (snd kv) acc) b a.

Definition ColorTable : Type := list (String.string * Color).

(** The key [colors] of a configuration or of a patch: absent, present with
    the value undefined, or a table. *)
Inductive ColorsEntry : Type :=
| ColorsAbsent
| ColorsUndefined
| ColorsTable (t : ColorTable).

Section ConfigPatches.
Context {FM : FixedMath}.

Inductive ConfigScalar : Type :=
| ScalarUndefined
| ScalarBool (b : bool)
| ScalarFixed (f : Fixed).

Record ConfigObject : Type := mkConfig {
  scalars : list (String.string * ConfigScalar);
  colorsEntry : ColorsEntry
}.

(** [{ ...old, ...config }] on the whole object: a [colors] key of the patch
    replaces the one of the old object. *)
Definition spreadConfig (old config : ConfigObject) : ConfigObject :=
  mkConfig (spread (scalars old) (scalars config))
           (match colorsEntry config with
            | ColorsAbsent => colorsEntry old
            | entry => entry
            end).

(** The properties an object spread copies out of a [colors] value. *)
Definition tableOf (entry : ColorsEntry) : ColorTable :=
  match entry with
  | ColorsTable t => t
  | _ => []
  end.

(** setDebugConfig: the spread, then, when the patch has a colour table,
    the table of the merged object spread with the table of the patch. *)
Definition setDebugConfig (debugConfig config : ConfigObject) : ConfigObject :=
  let merged := spreadConfig debugConfig config in
  match colorsEntry config with
  | ColorsTable c =>
      mkConfig (scalars merged) (ColorsTable (spread (tableOf (colorsEntry merged)) c))
  | _ => merged
  end.

(** setPhysicsDebugConfig has the same body on physicsConfig. *)
Definition setPhysicsDebugConfig (physicsConfig config : ConfigObject) : ConfigObject :=
  let merged := spreadConfig physicsConfig config in
  match colorsEntry config with
  | ColorsTable c =>
      mkConfig (scalars merged) (ColorsTable (spread (tableOf (colorsEntry merged)) c))
  | _ => merged
  end.

End ConfigPatches.

Section SampleConfig.
Import String.

Definition samplePhysicsColors : ColorTable :=
  [("staticBody"%string, mkColor (5 # 10) (9 # 10) (5 # 10) (8 # 10));
   ("jointLimit"%string, mkColor (8 # 10) (8 # 10) (3 # 10) 1)].

Definition samplePatchColors : ColorTable :=
  [("staticBody"%string, mkColor 1 0 0 1)].

Definition jointLimitKey : String.string := "jointLimit"%string.

End SampleConfig.

(** * Properties *)

(** ** The rationals satisfy the design's assumptions *)

Lemma QcLessThan_true (a b : Qc) : QcLessThan a b = true <-> (a < b)%Qc.
Proof.
  unfold QcLessThan. rewrite Qclt_alt.
  destruct (a ?= b)%Qc; split; intro H; congruence.
Qed.

Lemma QcLessThan_false (a b : Qc) : QcLessThan a b = false <-> (b <= a)%Qc.
Proof.
  split; intro H.
  - apply Qcnot_lt_le. intro L. apply QcLessThan_true in L. congruence.
  - destruct (QcLessThan a b) eqn:E; [|reflexivity].
    apply QcLessThan_true in E. exfalso. exact (Qcle_not_lt _ _ H E).
Qed.

Lemma Qcplus_lt_compat_r (a b c : Qc) : (a < b)%Qc -> (a + c < b + c)%Qc.
Proof.
  unfold Qclt, Qcplus. cbn [this Q2Qc]. intro H.
  rewrite !Qred_correct. now apply Qplus_lt_l.
Qed.

Lemma QcFloor_le (a : Qc) : (QcFloor a <= a)%Qc.
Proof.
  unfold QcFloor, Qcle. cbn [this Q2Qc]. rewrite Qred_correct. apply Qfloor_le.
Qed.

Lemma QcFloor_lt (a : Qc) : (a < QcFloor a + 1)%Qc.
Proof.
  unfold QcFloor, Qclt, Qcplus. cbn [this Q2Qc]. rewrite !Qred_correct.
  change (a < inject_Z (Qfloor a) + inject_Z 1)%Q.
  rewrite <- inject_Z_plus. apply Qlt_floor.
Qed.

Lemma QcExact : ExactFixed QcFixed.
Proof.
  constructor; simpl.
  - exact Qcrt.
  - intros a b. split; [apply Qc_eq_bool_correct|].
    intros ->. unfold Qc_eq_bool. destruct (Qc_eq_dec b b); congruence.
  - reflexivity.
  - reflexivity.
  - intro a. apply QcLessThan_false. apply Qcle_refl.
  - intros a b c H1 H2. apply QcLessThan_true.
    apply QcLessThan_true in H1. apply QcLessThan_true in H2.
    exact (Qclt_trans _ _ _ H1 H2).
  - intros a b H1 H2. apply QcLessThan_false in H1. apply QcLessThan_false in H2.
    now apply Qcle_antisym.
  - intros a b c H. apply QcLessThan_true. apply QcLessThan_true in H.
    now apply Qcplus_lt_compat_r.
  - intros a b c Hc H. apply QcLessThan_true.
    apply QcLessThan_true in H. apply QcLessThan_true in Hc.
    now apply Qcmult_lt_compat_r.
  - intros a b q Hb. unfold QcDivide. destruct (Qc_eq_dec b 0) as [E|_]; [contradiction|].
    split.
    + intro H. injection H as <-. unfold Qcdiv.
      rewrite <- Qcmult_assoc, Qcmult_inv_l by assumption. apply Qcmult_1_r.
    + intros <-. f_equal. now apply Qcdiv_mult_l.
  - intros a b Hb. unfold QcDivide. destruct (Qc_eq_dec b 0) as [E|_]; [contradiction|].
    eexists; reflexivity.
  - intro a. apply QcLessThan_false. apply QcFloor_le.
  - intro a. apply QcLessThan_true. apply QcFloor_lt.
Qed.

(** ** Consequences of exactness *)

Section Exact.
Context {FM : FixedMath} {EX : ExactFixed FM}.

Add Ring fixedRing : fixed_ring.

Lemma lessThan_asym (a b : Fixed) :
  lessThan a b = true -> lessThan b a = false.
Proof.
  intro H. destruct (lessThan b a) eqn:E; [|reflexivity].
  pose proof (lessThan_trans _ _ _ H E) as C.
  rewrite lessThan_irrefl in C. discriminate.
Qed.

Lemma lessThan_neq (a b : Fixed) : lessThan a b = true -> a <> b.
Proof.
  intros H ->. rewrite lessThan_irrefl in H. discriminate.
Qed.

(** [a <= b] and [b < c] give [a < c], with [a <= b] read as "not [b < a]". *)
Lemma notLess_lessThan_trans (a b c : Fixed) :
  lessThan b a = false -> lessThan b c = true -> lessThan a c = true.
Proof.
  intros Hab Hbc. destruct (lessThan a b) eqn:E.
  - exact (lessThan_trans _ _ _ E Hbc).
  - rewrite (lessThan_total _ _ E Hab). exact Hbc.
Qed.

Lemma lessThan_notLess_trans (a b c : Fixed) :
  lessThan a b = true -> lessThan c b = false -> lessThan a c = true.
Proof.
  intros Hab Hbc. destruct (lessThan b c) eqn:E.
  - exact (lessThan_trans _ _ _ Hab E).
  - rewrite <- (lessThan_total _ _ E Hbc). exact Hab.
Qed.

Lemma notLess_trans (a b c : Fixed) :
  lessThan b a = false -> lessThan c b = false -> lessThan c a = false.
Proof.
  intros Hab Hbc. destruct (lessThan c a) eqn:E; [|reflexivity].
  pose proof (notLess_lessThan_trans _ _ _ Hbc E) as C. congruence.
Qed.

Lemma lessThan_add_cancel (a b c : Fixed) :
  lessThan (add a c) (add b c) = true -> lessThan a b = true.
Proof.
  intro H. apply (lessThan_add _ _ (negate c)) in H.
  replace (add (add a c) (negate c)) with a in H by ring.
  replace (add (add b c) (negate c)) with b in H by ring.
  exact H.
Qed.

Lemma add_nonneg_notLess (a d : Fixed) :
  lessThan d ZERO = false -> lessThan (add a d) a = false.
Proof.
  intro H. destruct (lessThan (add a d) a) eqn:E; [|reflexivity].
  assert (L : lessThan d ZERO = true).
  { apply (lessThan_add_cancel _ _ a).
    replace (add d a) with (add a d) by ring.
    replace (add ZERO a) with a by ring. exact E. }
  congruence.
Qed.

Lemma multiply_lessThan_cancel (a b c : Fixed) :
  lessThan ZERO c = true ->
  lessThan (multiply a c) (multiply b c) = true -> lessThan a b = true.
Proof.
  intros Hc H. destruct (lessThan a b) eqn:E; [reflexivity|].
  destruct (lessThan b a) eqn:E'.
  - pose proof (lessThan_multiply _ _ _ Hc E') as C.
    pose proof (lessThan_asym _ _ C). congruence.
  - rewrite (lessThan_total _ _ E E') in H. rewrite lessThan_irrefl in H. discriminate.
Qed.

(** A non-negative dividend over a positive divisor: the quotient exists
    and is non-negative. *)
Lemma divide_nonneg (d s : Fixed) :
  lessThan ZERO s = true -> lessThan d ZERO = false ->
  exists q, divide d s = Some q /\ lessThan q ZERO = false.
Proof.
  intros Hs Hd.
  assert (Hne : s <> ZERO) by (intro E; rewrite E, lessThan_irrefl in Hs; discriminate).
  destruct (divide_defined d Hne) as [q Hq]. exists q. split; [exact Hq|].
  destruct (lessThan q ZERO) eqn:E; [|reflexivity].
  apply divide_spec in Hq; [|exact Hne].
  pose proof (lessThan_multiply _ _ _ Hs E) as C.
  rewrite Hq in C. replace (multiply ZERO s) with ZERO in C by ring. congruence.
Qed.

End Exact.

(** ** The animation resolver *)

Section Resolver.
Context {FM : FixedMath} {EX : ExactFixed FM}.

Add Ring resolverRing : fixed_ring.

Lemma validTiming_tail (g : AnimationFrame) (fs : list AnimationFrame) (speed : Fixed) :
  validTiming (g :: fs) speed -> validTiming fs speed.
Proof.
  intros [Hs Hd]. split; [exact Hs|]. intros h Hh. apply Hd. now right.
Qed.

Lemma validTiming_head (g : AnimationFrame) (fs : list AnimationFrame) (speed : Fixed) :
  validTiming (g :: fs) speed ->
  exists d, divide (duration g) speed = Some d /\ lessThan d ZERO = false.
Proof.
  intros [Hs Hd]. apply divide_nonneg; [exact Hs|]. apply Hd. now left.
Qed.

(** The first loop returns, and its total is not below where it started. *)
Lemma totalDurationFrom_defined (fs : list AnimationFrame) (speed : Fixed) :
  validTiming fs speed ->
  forall acc, exists a,
    totalDurationFrom fs speed acc = Done a /\ lessThan a acc = false.
Proof.
  induction fs as [|g fs IH]; intros V acc; simpl.
  - exists acc. split; [reflexivity|apply lessThan_irrefl].
  - destruct (validTiming_head V) as [d [Hd Hn]]. rewrite Hd. simpl.
    destruct (IH (validTiming_tail V) (add acc d)) as [a [Ha Hle]].
    exists a. split; [exact Ha|].
    apply (notLess_trans acc (add acc d) a); [|exact Hle].
    now apply add_nonneg_notLess.
Qed.

(** Each frame owns the half-open interval from the time accumulated before
    it to that time plus its own effective duration. *)
Lemma walkFrames_half_open (pre : list AnimationFrame) (f : AnimationFrame)
    (post : list AnimationFrame) (speed t : Fixed) :
  validTiming pre speed ->
  forall acc a fd,
    totalDurationFrom pre speed acc = Done a ->
    divide (duration f) speed = Some fd ->
    lessThan t a = false ->
    lessThan t (add a fd) = true ->
    walkFrames (pre ++ f :: post) speed t acc = Done (Some f).
Proof.
  induction pre as [|g pre IH]; intros V acc a fd Ha Hf Hlo Hhi; simpl in *.
  - injection Ha as <-. rewrite Hf. simpl. now rewrite Hhi.
  - destruct (validTiming_head V) as [d [Hd Hn]]. rewrite Hd in *. simpl in *.
    destruct (totalDurationFrom_defined (validTiming_tail V) (add acc d))
      as [a' [Ha' Hle]].
    rewrite Ha in Ha'. injection Ha' as <-.
    rewrite (notLess_trans _ _ _ Hle Hlo).
    now apply (IH (validTiming_tail V) (add acc d) a fd).
Qed.

End Resolver.

(** C2: on the non-looping animation of three one-second frames at speed 1,
    the resolver returns frame 2 at time 2.5, frame 0 at time 0.5 and frame 1
    at time 1.0; in general a frame is returned for every time from the time
    accumulated before it (included) up to that time plus its effective
    duration (excluded), so a time on a boundary belongs to the next frame. *)
Theorem frame_boundaries :
  getCurrentAnimationFrame (clip false) (Q2Qc (5 # 2)) = Done (nth_error threeFrames 2) /\
  getCurrentAnimationFrame (clip false) (Q2Qc (1 # 2)) = Done (nth_error threeFrames 0) /\
  getCurrentAnimationFrame (clip false) (Q2Qc 1) = Done (nth_error threeFrames 1) /\
  forall (FM : FixedMath) (EX : ExactFixed FM)
         (pre : list AnimationFrame) (f : AnimationFrame) (post : list AnimationFrame)
         (speed t accumulated fd : Fixed),
    validTiming pre speed ->
    totalDurationFrom pre speed ZERO = Done accumulated ->
    divide (duration f) speed = Some fd ->
    lessThan t accumulated = false ->
    lessThan t (add accumulated fd) = true ->
    walkFrames (pre ++ f :: post) speed t ZERO = Done (Some f).
Proof.
  split; [reflexivity|].
  split; [reflexivity|].
  split; [reflexivity|].
  intros FM EX pre f post speed t accumulated fd V Ha Hf Hlo Hhi.
  exact (walkFrames_half_open f post t V ZERO Ha Hf Hlo Hhi).
Qed.

Lemma frame_boundaries_witness :
  walkFrames ([mkFrame 0%nat unitRect 1%Qc]
                ++ mkFrame 1%nat unitRect 1%Qc :: [mkFrame 2%nat unitRect 1%Qc])
             1%Qc (Q2Qc 1) 0%Qc
  = Done (Some (mkFrame 1%nat unitRect 1%Qc)).
Proof.
  apply (proj2 (proj2 (proj2 frame_boundaries)) QcFixed QcExact
           [mkFrame 0%nat unitRect 1%Qc] (mkFrame 1%nat unitRect 1%Qc)
           [mkFrame 2%nat unitRect 1%Qc] 1%Qc (Q2Qc 1) (0 + 1 / 1)%Qc (1 / 1)%Qc).
  - split; [reflexivity|]. intros g [<-|[]]. reflexivity.
  - reflexivity.
  - reflexivity.
  - reflexivity.
  - reflexivity.
Defined.



(** C4, as the code has it: for an animation without frames the resolver
    returns null and drawSprite issues no draw call; neither raises. *)
Theorem empty_animation_draws_nothing :
  forall (FM : FixedMath) (animation : SpriteAnimation) (position : FixedVector2)
         (t : Fixed) (style : option TextureStyle),
    frames animation = [] ->
    getCurrentAnimationFrame animation t = Done None /\
    drawSprite animation position t style = ([], Done tt).
Proof.
  intros FM animation position t style H.
  unfold drawSprite, getCurrentAnimationFrame. rewrite H. split; reflexivity.
Qed.

Lemma empty_animation_draws_nothing_witness :
  getCurrentAnimationFrame (emptyClip false) 0%Qc = Done None /\
  drawSprite (emptyClip false) origin 0%Qc None = ([], Done tt).
Proof.
  apply (@empty_animation_draws_nothing QcFixed (emptyClip false) origin 0%Qc None).
  reflexivity.
Defined.

(** C4 as stated fails: on the empty animation no error reaches the caller
    of the resolver or of drawSprite. *)
Lemma empty_animation_no_error :
  getCurrentAnimationFrame (emptyClip false) 0%Qc <> Raised /\
  result (drawSprite (emptyClip false) origin 0%Qc None) <> Raised.
Proof.
  split; discriminate.
Qed.



(** ** The camera transform *)

Section CameraRing.
Context {FM : FixedMath}.
Hypothesis R : ring_theory ZERO ONE add multiply subtract negate (@eq Fixed).

Add Ring cameraRing : R.

Lemma subtract_add_cancel (a b : Fixed) : subtract (add a b) a = b.
Proof. ring. Qed.

Lemma add_subtract_cancel (a b : Fixed) : add (subtract a b) b = a.
Proof. ring. Qed.

Lemma multiply_ZERO_r (a : Fixed) : multiply a ZERO = ZERO.
Proof. ring. Qed.

Lemma add_ZERO_r (a : Fixed) : add a ZERO = a.
Proof. ring. Qed.

Lemma negate_ZERO : negate ZERO = ZERO.
Proof. ring. Qed.

Lemma subtract_ZERO_r (a : Fixed) : subtract a ZERO = a.
Proof. ring. Qed.

Lemma subtract_diag (a : Fixed) : subtract a a = ZERO.
Proof. ring. Qed.

(** Rotating by [r] and then by [-r] is the identity when the sine and
    cosine carry no rounding error. *)
Lemma rotateBy_negate (r : Fixed) (v : FixedVector2) :
  exactTrig r -> rotateBy (negate r) (rotateBy r v) = v.
Proof.
  intros [Hc [Hs H1]]. destruct v as [x y]. unfold rotateBy. simpl.
  rewrite Hc, Hs. set (c := cosFixed r) in *. set (s := sinFixed r) in *.
  f_equal.
  - transitivity (multiply x (add (multiply c c) (multiply s s))); [ring|].
    rewrite H1. ring.
  - transitivity (multiply y (add (multiply c c) (multiply s s))); [ring|].
    rewrite H1. ring.
Qed.

End CameraRing.

Lemma recentre_cancel {FM : FixedMath} (c v : FixedVector2) :
  (forall a b : Fixed, subtract (add a b) a = b) ->
  vsubtract (vadd c v) c = v.
Proof.
  intro H. destruct c, v. unfold vsubtract, vadd. simpl. now rewrite !H.
Qed.

(** C1: converting a point to the screen and back leaves only the zoom
    multiplication followed by the zoom division: with rotation 0 as soon as
    recentring cancels, and with any rotation when the arithmetic is a ring
    and the sine and cosine are free of rounding error.  With exact division
    and a non-zero zoom that remainder is the point itself. *)
Theorem camera_round_trip :
  forall (FM : FixedMath) (camera : CameraConfig) (viewport : Viewport)
         (p : FixedVector2),
    (forall a b : Fixed, subtract (add a b) a = b) ->
    (equals (rotation camera) ZERO = true ->
     roundTrip camera viewport p = zoomThenUnzoom camera p) /\
    (ring_theory ZERO ONE add multiply subtract negate (@eq Fixed) ->
     exactTrig (rotation camera) ->
     roundTrip camera viewport p = zoomThenUnzoom camera p) /\
    (ExactFixed FM -> zoom camera <> ZERO ->
     zoomThenUnzoom camera p = Done p).
Proof.
  intros FM camera viewport p Hcancel.
  assert (Hzero : equals (rotation camera) ZERO = true ->
                  roundTrip camera viewport p = zoomThenUnzoom camera p).
  { intro E. unfold roundTrip, worldToScreen, screenToWorld, zoomThenUnzoom.
    simpl. rewrite E. simpl.
    rewrite !Hcancel. reflexivity. }
  split; [exact Hzero|]. split.
  - intros R T. destruct (equals (rotation camera) ZERO) eqn:E; [now apply Hzero|].
    unfold roundTrip, worldToScreen, screenToWorld, zoomThenUnzoom.
    cbn [obind]. rewrite E. cbn [negb].
    rewrite (recentre_cancel _ _ Hcancel).
    rewrite (rotateBy_negate R _ T). reflexivity.
  - intros EX Hz. unfold zoomThenUnzoom.
    pose proof (@fixed_ring FM EX) as R.
    rewrite (proj2 (divide_spec (multiply (vx (vsubtract p (position camera))) (zoom camera))
                                (vx (vsubtract p (position camera))) Hz) eq_refl).
    rewrite (proj2 (divide_spec (multiply (vy (vsubtract p (position camera))) (zoom camera))
                                (vy (vsubtract p (position camera))) Hz) eq_refl).
    simpl. destruct p as [x y]. unfold vadd. simpl.
    now rewrite !(add_subtract_cancel R).
Qed.

Lemma Qc_recentre (a b : Qc) : (a + b - a)%Qc = b.
Proof. ring. Qed.

Lemma Qc_two_nonzero : Q2Qc 2 <> 0%Qc.
Proof.
  intro E. apply (f_equal this) in E. vm_compute in E. discriminate.
Qed.

Lemma Qc_square_plus_one (u : Qc) : (1 + u * u)%Qc <> 0%Qc.
Proof.
  assert (L : (0 < 1 + u * u)%Qc).
  { apply Qclt_le_trans with (1 + 0)%Qc; [reflexivity|].
    apply Qcplus_le_compat; [apply Qcle_refl|].
    destruct (Qclt_le_dec u 0) as [N|P].
    - replace (u * u)%Qc with ((- u) * (- u))%Qc by ring.
      assert (P : (0 <= - u)%Qc).
      { apply Qclt_le_weak in N. apply Qcopp_le_compat in N. exact N. }
      rewrite <- (Qcmult_0_l (- u)). now apply Qcmult_le_compat_r.
    - rewrite <- (Qcmult_0_l u). now apply Qcmult_le_compat_r. }
  intro E. rewrite E in L. exact (Qclt_not_eq _ _ L eq_refl).
Qed.

Lemma Qc_exactTrig (r : Qc) : @exactTrig QcFixed r.
Proof.
  unfold exactTrig. simpl. unfold QcCos, QcSin.
  assert (Hn : (- r / Q2Qc 2)%Qc = (- (r / Q2Qc 2))%Qc).
  { unfold Qcdiv. ring. }
  rewrite Hn. set (u := (r / Q2Qc 2)%Qc).
  pose proof (@Qc_square_plus_one u) as Hd.
  replace (- u * - u)%Qc with (u * u)%Qc by ring.
  split; [reflexivity|]. split.
  - unfold Qcdiv. ring.
  - set (two := Q2Qc 2).
    assert (H4 : (two * two)%Qc = (1 + 1 + 1 + 1)%Qc).
    { apply Qc_is_canon. reflexivity. }
    assert (Hi : ((1 + u * u) * / (1 + u * u))%Qc = 1%Qc) by now apply Qcmult_inv_r.
    unfold Qcdiv. set (i := (/ (1 + u * u))%Qc) in *.
    transitivity ((((1 + u * u) * i) * ((1 + u * u) * i)
                   + (two * two - (1 + 1 + 1 + 1)) * (u * u * i * i))%Qc); [ring|].
    rewrite Hi, H4. ring.
Qed.

Lemma camera_round_trip_witness :
  roundTrip (sampleCamera (Q2Qc 2) 0%Qc) screen800x600 samplePoint = Done samplePoint /\
  roundTrip (sampleCamera (Q2Qc 2) 1%Qc) screen800x600 samplePoint = Done samplePoint.
Proof.
  split.
  - destruct (@camera_round_trip QcFixed (sampleCamera (Q2Qc 2) 0%Qc)
                screen800x600 samplePoint Qc_recentre) as [H0 [_ H2]].
    rewrite H0 by reflexivity. apply H2; [exact QcExact|exact Qc_two_nonzero].
  - destruct (@camera_round_trip QcFixed (sampleCamera (Q2Qc 2) 1%Qc)
                screen800x600 samplePoint Qc_recentre) as [_ [H1 H2]].
    rewrite H1; [|exact Qcrt|apply Qc_exactTrig].
    apply H2; [exact QcExact|exact Qc_two_nonzero].
Defined.

(** C7, as the code has it: a camera whose zoom is zero is stored by
    setCamera like any other, and worldToScreen returns for it: with
    rotation 0 it sends every point to the viewport centre.  Only
    screenToWorld can fail, and it does when the library's division raises
    on the zero divisor. *)
Theorem zero_zoom_not_rejected :
  forall (FM : FixedMath) (old camera : CameraConfig) (viewport : Viewport)
         (p : FixedVector2),
    zoom camera = ZERO ->
    setCamera old camera = Done camera /\
    worldToScreen camera viewport p <> Raised /\
    (ring_theory ZERO ONE add multiply subtract negate (@eq Fixed) ->
     equals (rotation camera) ZERO = true ->
     worldToScreen camera viewport p = Done (screenCenter viewport)) /\
    ((forall a : Fixed, divide a ZERO = None) ->
     screenToWorld camera viewport p = Raised).
Proof.
  intros FM old camera viewport p Hz.
  split; [reflexivity|]. split; [discriminate|]. split.
  - intros R E. unfold worldToScreen. rewrite E, Hz. simpl. f_equal.
    unfold vadd, screenCenter. simpl.
    now rewrite !(multiply_ZERO_r R), !(add_ZERO_r R).
  - intro Hdiv. unfold screenToWorld. rewrite Hz, Hdiv. reflexivity.
Qed.

Lemma zero_zoom_not_rejected_witness :
  setCamera (sampleCamera 1%Qc 0%Qc) (sampleCamera 0%Qc 0%Qc)
    = Done (sampleCamera 0%Qc 0%Qc) /\
  worldToScreen (sampleCamera 0%Qc 0%Qc) screen800x600 samplePoint <> Raised /\
  worldToScreen (sampleCamera 0%Qc 0%Qc) screen800x600 samplePoint
    = Done (screenCenter screen800x600) /\
  screenToWorld (sampleCamera 0%Qc 0%Qc) screen800x600 samplePoint = Raised.
Proof.
  destruct (@zero_zoom_not_rejected QcFixed (sampleCamera 1%Qc 0%Qc)
              (sampleCamera 0%Qc 0%Qc) screen800x600 samplePoint eq_refl)
    as [H1 [H2 [H3 H4]]].
  split; [exact H1|]. split; [exact H2|]. split.
  - apply H3; [exact Qcrt|reflexivity].
  - apply H4. intro a. reflexivity.
Defined.

(** C7 as stated fails: the zero-zoom camera is accepted and a point is
    converted to the screen without any error. *)
Lemma zero_zoom_accepted :
  setCamera (sampleCamera 1%Qc 0%Qc) (sampleCamera 0%Qc 0%Qc) <> Raised /\
  worldToScreen (sampleCamera 0%Qc 0%Qc) screen800x600 samplePoint <> Raised.
Proof.
  split; discriminate.
Qed.

(** ** Joint limits *)

Lemma jointArcPoints_map {FM : FixedMath} (n : nat) (center : FixedVector2)
    (minAngle angleStep radius : Fixed) (i : nat) :
  jointArcPoints n center minAngle angleStep radius i
  = map (jointArcPoint center minAngle angleStep radius) (seq i n).
Proof.
  revert i. induction n as [|n IH]; intro i; simpl; [reflexivity|].
  now rewrite IH.
Qed.

(** C9: drawJointLimits works with 16 segments and issues one polygon whose
    vertices are the centre followed by the 17 samples at the angles
    [minAngle + step * i], [i] from 0 to 16, where [step] is the angular
    range divided by 16: 18 vertices. *)
Theorem joint_limits_fan :
  forall (FM : FixedMath) (jointLimit : Color) (center : FixedVector2)
         (minAngle maxAngle radius angleStep : Fixed),
    divide (subtract maxAngle minAngle) (fromNumber 16) = Some angleStep ->
    segments = 16%nat /\
    drawJointLimits jointLimit center minAngle maxAngle radius
    = ([DrawPolygon
          (center :: map (fun i =>
                            vadd center
                              (mkVec (multiply (cosFixed (add minAngle (multiply angleStep
                                                  (fromNumber (inject_Z (Z.of_nat i))))))
                                               radius)
                                     (multiply (sinFixed (add minAngle (multiply angleStep
                                                  (fromNumber (inject_Z (Z.of_nat i))))))
                                               radius)))
                         (seq 0 17))
          (jointLimitStyle jointLimit)],
       Done tt) /\
    length (center :: map (jointArcPoint center minAngle angleStep radius) (seq 0 17))
    = 18%nat.
Proof.
  intros FM jointLimit center minAngle maxAngle radius angleStep H.
  split; [reflexivity|]. split.
  - unfold drawJointLimits.
    change (fromNumber (inject_Z (Z.of_nat segments))) with (fromNumber 16).
    rewrite H. unfold bind, lift, ofOption, emit.
    rewrite jointArcPoints_map. reflexivity.
  - simpl. reflexivity.
Qed.

Lemma joint_limits_fan_witness :
  exists vertices,
    drawJointLimits red origin 0%Qc fixedPi 1%Qc
    = ([DrawPolygon vertices (jointLimitStyle red)], Done tt) /\
    length vertices = 18%nat.
Proof.
  destruct (@joint_limits_fan QcFixed red origin 0%Qc fixedPi 1%Qc
              ((fixedPi - 0) / Q2Qc 16)%Qc eq_refl) as [_ [H _]].
  eexists. split; [exact H|reflexivity].
Defined.

(** ** Arrows *)

(** Whenever drawArrow returns, it has issued the shaft and both head
    lines. *)
Lemma drawArrow_three_lines {FM : FixedMath} (axisLength : Fixed)
    (start stop : FixedVector2) (c : Color) (headSize : option Fixed) :
  result (drawArrow axisLength start stop c headSize) = Done tt ->
  exists headLeft headRight,
    calls (drawArrow axisLength start stop c headSize)
    = [DrawLine start stop (solidLine c);
       DrawLine stop headLeft (solidLine c);
       DrawLine stop headRight (solidLine c)].
Proof.
  unfold drawArrow.
  destruct (match headSize with
            | Some h => Done h
            | None => ofOption (divide axisLength (fromNumber 10))
            end) as [size|]; simpl; [|discriminate].
  destruct (vnormalize (vsubtract stop start)) as [direction|]; simpl; [|discriminate].
  destruct (divide size (fromNumber 2)) as [half|]; simpl; [|discriminate].
  intros _. eexists. eexists. reflexivity.
Qed.

(** With both ends equal and a normalize that maps the zero vector to the
    zero vector, the three lines all go from the end point to itself. *)
Lemma drawArrow_degenerate {FM : FixedMath}
    (R : ring_theory ZERO ONE add multiply subtract negate (@eq Fixed))
    (axisLength : Fixed) (p : FixedVector2) (c : Color) (headSize : option Fixed) :
  normalizeXY ZERO ZERO = Some (ZERO, ZERO) ->
  result (drawArrow axisLength p p c headSize) = Done tt ->
  calls (drawArrow axisLength p p c headSize)
  = [DrawLine p p (solidLine c); DrawLine p p (solidLine c); DrawLine p p (solidLine c)].
Proof.
  intro Hn. unfold drawArrow.
  destruct (match headSize with
            | Some h => Done h
            | None => ofOption (divide axisLength (fromNumber 10))
            end) as [size|]; simpl; [|discriminate].
  unfold vnormalize, vsubtract. simpl. rewrite !(subtract_diag R), Hn. simpl.
  destruct (divide size (fromNumber 2)) as [half|]; simpl; [|discriminate].
  intros _. unfold calls, vadd, vsubtract, vmultiply. simpl.
  rewrite (negate_ZERO R).
  rewrite !(Rmul_comm R ZERO), !(multiply_ZERO_r R), !(subtract_ZERO_r R), !(add_ZERO_r R).
  destruct p. reflexivity.
Qed.

(** C5, as the code has it: drawArrow never leaves the head out.  Whenever
    it returns, equal end points included, it has issued three lines: the
    shaft and two head lines from the end point.  With equal end points and
    a normalize that maps the zero vector to itself, all three are the
    line from the end point to itself. *)
Theorem arrow_head_always_drawn :
  forall (FM : FixedMath) (axisLength : Fixed) (start stop : FixedVector2)
         (c : Color) (headSize : option Fixed),
    result (drawArrow axisLength start stop c headSize) = Done tt ->
    (exists headLeft headRight,
        calls (drawArrow axisLength start stop c headSize)
        = [DrawLine start stop (solidLine c);
           DrawLine stop headLeft (solidLine c);
           DrawLine stop headRight (solidLine c)]) /\
    (ring_theory ZERO ONE add multiply subtract negate (@eq Fixed) ->
     normalizeXY ZERO ZERO = Some (ZERO, ZERO) ->
     start = stop ->
     calls (drawArrow axisLength start stop c headSize)
     = [DrawLine stop stop (solidLine c);
        DrawLine stop stop (solidLine c);
        DrawLine stop stop (solidLine c)]).
Proof.
  intros FM axisLength start stop c headSize Hres.
  split; [now apply drawArrow_three_lines|].
  intros R Hn E. subst start. now apply drawArrow_degenerate.
Qed.

Lemma arrow_head_always_drawn_witness :
  length (calls (drawArrow (Q2Qc 2) origin origin red (Some 1%Qc))) = 3%nat.
Proof.
  destruct (@arrow_head_always_drawn QcFixed (Q2Qc 2) origin origin red (Some 1%Qc)
              eq_refl) as [_ H].
  rewrite H; [reflexivity|exact Qcrt|reflexivity|reflexivity].
Defined.

(** C5 as stated fails: with both ends at the origin drawArrow issues three
    draw calls, not one. *)
Lemma degenerate_arrow_three_calls :
  length (calls (drawArrow (Q2Qc 2) origin origin red (Some 1%Qc))) <> 1%nat /\
  length (calls (drawArrow (Q2Qc 2) origin origin red None)) <> 1%nat.
Proof.
  split; vm_compute; discriminate.
Qed.

(** ** Grid *)

Section Grid.
Context {FM : FixedMath} {EX : ExactFixed FM}.

Add Ring gridRing : fixed_ring.

(** The snapped start of a grid axis with a positive spacing: a multiple of
    the spacing at or below the bound, less than one spacing away. *)
Lemma snap_down (bound spacing q : Fixed) :
  lessThan ZERO spacing = true ->
  divide bound spacing = Some q ->
  lessThan bound (multiply (floor q) spacing) = false /\
  lessThan bound (add (multiply (floor q) spacing) spacing) = true.
Proof.
  intros Hs Hq.
  assert (Hne : spacing <> ZERO).
  { intro E. rewrite E, lessThan_irrefl in Hs. discriminate. }
  apply divide_spec in Hq; [|exact Hne]. split.
  - destruct (lessThan bound (multiply (floor q) spacing)) eqn:E; [|reflexivity].
    rewrite <- Hq in E. apply (multiply_lessThan_cancel _ _ _ Hs) in E.
    rewrite floor_below in E. discriminate.
  - pose proof (lessThan_multiply _ _ _ Hs (floor_above q)) as U.
    rewrite Hq in U.
    replace (multiply (add (floor q) ONE) spacing)
      with (add (multiply (floor q) spacing) spacing) in U by ring.
    exact U.
Qed.

(** With a negative spacing the vertical loop, once entered, issues a line
    on every iteration and is still running when any fuel is spent. *)
Lemma verticalLines_never_ends (bounds : FixedRect) (spacing endX : Fixed)
    (style : GridStyle) :
  lessThan spacing ZERO = true ->
  forall fuel x lineCount,
    lessThan endX x = false ->
    snd (verticalLines fuel bounds spacing endX style x lineCount) = None /\
    length (fst (verticalLines fuel bounds spacing endX style x lineCount)) = fuel.
Proof.
  intros Hs. induction fuel as [|fuel IH]; intros x lineCount Hx; simpl.
  - split; reflexivity.
  - rewrite lessThanOrEqual_spec, Hx. simpl.
    assert (Hstep : lessThan endX (add x spacing) = false).
    { destruct (lessThan endX (add x spacing)) eqn:E; [|reflexivity].
      pose proof (lessThan_add _ _ x Hs) as D.
      replace (add spacing x) with (add x spacing) in D by ring.
      replace (add ZERO x) with x in D by ring.
      pose proof (lessThan_trans _ _ _ E D). congruence. }
    destruct (IH (add x spacing) (S lineCount) Hstep) as [I1 I2].
    destruct (verticalLines fuel bounds spacing endX style (add x spacing) (S lineCount))
      as [cs r].
    simpl in *. split; [exact I1|now rewrite I2].
Qed.

Lemma drawGrid_negative_spacing (toWorld : FixedVector2 -> outcome FixedVector2)
    (viewport : Viewport) (spacing : Fixed) (style : GridStyle)
    (bounds : FixedRect) (qx : Fixed) :
  getViewBounds toWorld viewport = Done bounds ->
  divide (rx bounds) spacing = Some qx ->
  lessThan spacing ZERO = true ->
  lessThanOrEqual (multiply (floor qx) spacing) (add (rx bounds) (rwidth bounds)) = true ->
  forall fuel,
    snd (drawGrid fuel true toWorld viewport spacing style) = None /\
    length (fst (drawGrid fuel true toWorld viewport spacing style)) = fuel.
Proof.
  intros Hb Hqx Hs Hin fuel.
  assert (Hne : spacing <> ZERO).
  { intro E. rewrite E, lessThan_irrefl in Hs. discriminate. }
  destruct (divide_defined (ry bounds) Hne) as [qy Hqy].
  rewrite lessThanOrEqual_spec in Hin. apply negb_true_iff in Hin.
  destruct (@verticalLines_never_ends bounds spacing
              (add (rx bounds) (rwidth bounds)) style Hs
              fuel (multiply (floor qx) spacing) 0%nat Hin) as [V1 V2].
  unfold drawGrid. simpl. rewrite Hb. simpl. rewrite Hqx. simpl. rewrite Hqy. simpl.
  destruct (verticalLines fuel bounds spacing (add (rx bounds) (rwidth bounds)) style
              (multiply (floor qx) spacing) 0) as [cs r].
  simpl in *. subst r. simpl. split; [reflexivity|exact V2].
Qed.

End Grid.

Lemma drawGrid_zero_spacing {FM : FixedMath}
    (toWorld : FixedVector2 -> outcome FixedVector2) (viewport : Viewport)
    (style : GridStyle) (bounds : FixedRect) (fuel : nat) :
  getViewBounds toWorld viewport = Done bounds ->
  (forall a : Fixed, divide a ZERO = None) ->
  drawGrid fuel true toWorld viewport ZERO style = ([], Some Raised).
Proof.
  intros Hb Hdiv. unfold drawGrid. simpl. rewrite Hb. simpl. rewrite Hdiv. reflexivity.
Qed.

(** C6, as the code has it: with spacing 1 over the view from -2.4 to 5.6
    drawGrid issues its vertical lines at x = -3, -2, ..., 5 and returns;
    the start is [floor(-2.4 / 1) * 1 = -3].  For a positive spacing the
    start [floor(bound / spacing) * spacing] is never above the bound and
    less than one spacing below it. *)
Theorem grid_vertical_lines :
  verticalXs (fst (drawGrid 20 true baseScreenToWorld gridViewport 1%Qc plainGrid))
  = [-3 # 1; -2 # 1; -1 # 1; 0 # 1; 1 # 1; 2 # 1; 3 # 1; 4 # 1; 5 # 1] /\
  snd (drawGrid 20 true baseScreenToWorld gridViewport 1%Qc plainGrid) = Some (Done tt) /\
  forall (FM : FixedMath) (EX : ExactFixed FM) (bound spacing q : Fixed),
    lessThan ZERO spacing = true ->
    divide bound spacing = Some q ->
    lessThan bound (multiply (floor q) spacing) = false /\
    lessThan bound (add (multiply (floor q) spacing) spacing) = true.
Proof.
  split; [vm_compute; reflexivity|]. split; [vm_compute; reflexivity|].
  intros FM EX bound spacing q Hs Hq. now apply snap_down.
Qed.

Lemma grid_vertical_lines_witness :
  QcLessThan (Q2Qc (-24 # 10)) (QcFloor (Q2Qc (-24 # 10) / 1) * 1)%Qc = false /\
  QcLessThan (Q2Qc (-24 # 10)) (QcFloor (Q2Qc (-24 # 10) / 1) * 1 + 1)%Qc = true.
Proof.
  apply (proj2 (proj2 grid_vertical_lines) QcFixed QcExact
           (Q2Qc (-24 # 10)) 1%Qc (Q2Qc (-24 # 10) / 1)%Qc).
  - reflexivity.
  - reflexivity.
Defined.

(** C6 as stated fails: the vertical lines are not at -2, ..., 5; there is a
    ninth one at -3. *)
Lemma grid_starts_below_bound :
  verticalXs (fst (drawGrid 20 true baseScreenToWorld gridViewport 1%Qc plainGrid))
  <> [-2 # 1; -1 # 1; 0 # 1; 1 # 1; 2 # 1; 3 # 1; 4 # 1; 5 # 1].
Proof.
  vm_compute. discriminate.
Qed.

(** C8, as the code has it: drawGrid never checks the spacing.  With the
    grid switched off it returns at once for every spacing.  With spacing 0
    it fails when the library's division raises on the zero divisor, before
    any line.  With a negative spacing nothing is raised: when the snapped
    start is not beyond the far bound, the vertical loop issues one line per
    iteration and never ends. *)
Theorem grid_spacing_unchecked :
  forall (FM : FixedMath) (EX : ExactFixed FM)
         (toWorld : FixedVector2 -> outcome FixedVector2) (viewport : Viewport)
         (spacing : Fixed) (style : GridStyle) (bounds : FixedRect),
    getViewBounds toWorld viewport = Done bounds ->
    (forall fuel,
        drawGrid fuel false toWorld viewport spacing style = ([], Some (Done tt))) /\
    (spacing = ZERO -> (forall a : Fixed, divide a ZERO = None) ->
     forall fuel,
       drawGrid fuel true toWorld viewport spacing style = ([], Some Raised)) /\
    (forall qx,
        divide (rx bounds) spacing = Some qx ->
        lessThan spacing ZERO = true ->
        lessThanOrEqual (multiply (floor qx) spacing)
                        (add (rx bounds) (rwidth bounds)) = true ->
        forall fuel,
          snd (drawGrid fuel true toWorld viewport spacing style) = None /\
          length (fst (drawGrid fuel true toWorld viewport spacing style)) = fuel).
Proof.
  intros FM EX toWorld viewport spacing style bounds Hb.
  split; [reflexivity|]. split.
  - intros -> Hdiv fuel. exact (@drawGrid_zero_spacing FM toWorld viewport style bounds fuel Hb Hdiv).
  - intros qx Hqx Hs Hin fuel.
    exact (@drawGrid_negative_spacing FM EX toWorld viewport spacing style bounds qx
             Hb Hqx Hs Hin fuel).
Qed.

Lemma grid_spacing_unchecked_witness :
  (forall fuel,
      drawGrid fuel true baseScreenToWorld screen800x600 0%Qc plainGrid
      = ([], Some Raised)) /\
  (forall fuel,
      snd (drawGrid fuel true baseScreenToWorld screen800x600 (Q2Qc (-1)) plainGrid) = None /\
      length (fst (drawGrid fuel true baseScreenToWorld screen800x600 (Q2Qc (-1)) plainGrid))
      = fuel).
Proof.
  split.
  - destruct (@grid_spacing_unchecked QcFixed QcExact baseScreenToWorld screen800x600
                0%Qc plainGrid _ eq_refl) as [_ [H _]].
    intro fuel. apply H; [reflexivity|]. intro a. reflexivity.
  - destruct (@grid_spacing_unchecked QcFixed QcExact baseScreenToWorld screen800x600
                (Q2Qc (-1)) plainGrid _ eq_refl) as [_ [_ H]].
    intro fuel. apply (H (Q2Qc 0 / Q2Qc (-1))%Qc); reflexivity.
Defined.

(** C8 as stated fails: with spacing -1 on the 800 by 600 viewport the call
    never ends with an error, and it has issued a hundred lines after a
    hundred iterations. *)
Lemma negative_spacing_grid_runs_on :
  ~ (exists fuel,
        snd (drawGrid fuel true baseScreenToWorld screen800x600 (Q2Qc (-1)) plainGrid)
        = Some Raised) /\
  length (fst (drawGrid 100 true baseScreenToWorld screen800x600 (Q2Qc (-1)) plainGrid))
  = 100%nat.
Proof.
  assert (H : forall fuel,
             snd (drawGrid fuel true baseScreenToWorld screen800x600 (Q2Qc (-1)) plainGrid)
             = None /\
             length (fst (drawGrid fuel true baseScreenToWorld screen800x600 (Q2Qc (-1))
                            plainGrid)) = fuel).
  { intro fuel.
    apply (@drawGrid_negative_spacing QcFixed QcExact baseScreenToWorld screen800x600
             (Q2Qc (-1)) plainGrid _ (Q2Qc 0 / Q2Qc (-1))%Qc eq_refl); reflexivity. }
  split.
  - intros [fuel E]. destruct (H fuel) as [N _]. rewrite N in E. discriminate.
  - apply H.
Qed.

Unset Implicit Arguments.

(** ** More on the animation resolver *)

Section ResolverTotal.
Context {FM : FixedMath} {EX : ExactFixed FM}.

Add Ring resolverTotalRing : fixed_ring.

Lemma zero_lessThan_one : lessThan ZERO ONE = true.
Proof.
  destruct (lessThan ZERO ONE) eqn:E; [reflexivity|].
  destruct (lessThan ONE ZERO) eqn:E'.
  - (* 1 < 0 gives 0 < -1, and multiplying 1 < 0 by -1 gives -1 < 0 *)
    pose proof (lessThan_add _ _ (negate ONE) E') as P.
    replace (add ONE (negate ONE)) with ZERO in P by ring.
    replace (add ZERO (negate ONE)) with (negate ONE) in P by ring.
    pose proof (lessThan_multiply _ _ _ P E') as M.
    replace (multiply ONE (negate ONE)) with (negate ONE) in M by ring.
    replace (multiply ZERO (negate ONE)) with ZERO in M by ring.
    pose proof (lessThan_asym _ _ P). congruence.
  - (* 0 = 1 contradicts a < floor a + 1 *)
    pose proof (lessThan_total _ _ E E') as Z.
    pose proof (floor_above ZERO) as F.
    replace (add (floor ZERO) ONE) with (floor ZERO) in F by (rewrite <- Z; ring).
    assert (A : forall a : Fixed, a = ZERO).
    { intro a. transitivity (multiply a ONE); [ring|]. rewrite <- Z. ring. }
    rewrite (A (floor ZERO)), lessThan_irrefl in F. discriminate.
Qed.

Lemma ONE_nonzero : ONE <> ZERO.
Proof.
  intro E. pose proof zero_lessThan_one as H.
  rewrite E, lessThan_irrefl in H. discriminate.
Qed.

Lemma divide_by_ONE (d : Fixed) : divide d ONE = Some d.
Proof.
  apply divide_spec; [exact ONE_nonzero|]. ring.
Qed.

Lemma last_In (A : Type) (x : A) (l : list A) (d : A) : In (last (x :: l) d) (x :: l).
Proof.
  revert x. induction l as [|y l IH]; intro x.
  - now left.
  - right. exact (IH y).
Qed.

Lemma totalDurationFrom_app (pre rest : list AnimationFrame) (speed acc : Fixed) :
  totalDurationFrom (pre ++ rest) speed acc
  = obind (totalDurationFrom pre speed acc) (fun a => totalDurationFrom rest speed a).
Proof.
  revert acc. induction pre as [|g pre IH]; intro acc; simpl; [reflexivity|].
  destruct (divide (duration g) speed); simpl; [apply IH|reflexivity].
Qed.

(** With valid timing the walk never raises: it stops at a frame of the
    list or runs off its end. *)
Lemma walkFrames_defined (fs : list AnimationFrame) (speed t : Fixed) :
  validTiming fs speed ->
  forall acc,
    (exists f, walkFrames fs speed t acc = Done (Some f) /\ In f fs) \/
    walkFrames fs speed t acc = Done None.
Proof.
  induction fs as [|g fs IH]; intros V acc; simpl.
  - now right.
  - destruct (validTiming_head V) as [d [Hd _]]. rewrite Hd. simpl.
    destruct (lessThan t (add acc d)).
    + left. exists g. split; [reflexivity|now left].
    + destruct (IH (validTiming_tail V) (add acc d)) as [[f [Hf Hin]]|Hn].
      * left. exists f. split; [exact Hf|now right].
      * now right.
Qed.

(** A time at or after the end of the last frame is in no frame's
    interval. *)
Lemma walkFrames_past_end (fs : list AnimationFrame) (speed t : Fixed) :
  validTiming fs speed ->
  forall acc total,
    totalDurationFrom fs speed acc = Done total ->
    lessThan t total = false ->
    walkFrames fs speed t acc = Done None.
Proof.
  induction fs as [|g fs IH]; intros V acc total Ht Hge; simpl in *; [reflexivity|].
  destruct (validTiming_head V) as [d [Hd _]]. rewrite Hd in *. simpl in *.
  destruct (totalDurationFrom_defined (validTiming_tail V) (add acc d)) as [a [Ha Hle]].
  rewrite Ht in Ha. injection Ha as <-.
  rewrite (notLess_trans _ _ _ Hle Hge).
  exact (IH (validTiming_tail V) (add acc d) total Ht Hge).
Qed.

(** With valid timing and at least one frame the resolver returns one of
    the frames, whatever the time and the loop flag. *)
Lemma resolver_member (animation : SpriteAnimation) (first : AnimationFrame)
    (rest : list AnimationFrame) (t : Fixed) :
  frames animation = first :: rest ->
  validTiming (frames animation) (playbackSpeed animation) ->
  exists f, In f (frames animation) /\
            getCurrentAnimationFrame animation t = Done (Some f).
Proof.
  intros Hfs V.
  assert (Hlast : In (last (frames animation) first) (frames animation)).
  { rewrite Hfs. apply last_In. }
  assert (Hfirst : In first (frames animation)) by (rewrite Hfs; now left).
  assert (Hat : forall w, exists f, In f (frames animation) /\
                                    frameAt animation first w = Done (Some f)).
  { intro w. unfold frameAt.
    destruct (walkFrames_defined (frames animation) (playbackSpeed animation) w V ZERO)
      as [[f [Hf Hin]]|Hn].
    - exists f. rewrite Hf. split; [exact Hin|reflexivity].
    - exists (last (frames animation) first). rewrite Hn. split; [exact Hlast|reflexivity]. }
  destruct (totalDurationFrom_defined V ZERO) as [a [Ha _]].
  unfold getCurrentAnimationFrame. rewrite Ha.
  destruct (frames animation) as [|x xs] eqn:E; [discriminate|].
  injection Hfs as -> ->. simpl.
  destruct (equals a ZERO) eqn:Ez.
  - exists first. split; [exact Hfirst|reflexivity].
  - destruct (loop animation).
    + assert (Hne : a <> ZERO).
      { intro Z. apply equals_spec in Z. congruence. }
      destruct (divide_defined t Hne) as [q Hq]. rewrite Hq. simpl.
      apply Hat.
    + destruct (greaterThan t a).
      * exists (last (first :: rest) first). split; [exact Hlast|reflexivity].
      * apply Hat.
Qed.

End ResolverTotal.

Lemma validTiming_app {FM : FixedMath} (pre post : list AnimationFrame) (speed : Fixed) :
  validTiming (pre ++ post) speed -> validTiming pre speed /\ validTiming post speed.
Proof.
  intros [Hs Hd]. split; (split; [exact Hs|]); intros g Hg; apply Hd; apply in_or_app;
    [now left|now right].
Qed.

Lemma validTiming_threeFrames : validTiming threeFrames 1%Qc.
Proof.
  split; [reflexivity|]. intros g [<-|[<-|[<-|[]]]]; reflexivity.
Qed.

(** X1: for an animation with at least one frame, a positive playback speed
    and no negative duration, drawSprite issues exactly one textured region,
    whatever the time and the loop flag: a frame of the animation, placed at
    the given position with the size of the frame's source rectangle. *)
Theorem sprite_draws_one_frame :
  forall (FM : FixedMath) (EX : ExactFixed FM)
         (animation : SpriteAnimation) (first : AnimationFrame)
         (rest : list AnimationFrame) (position : FixedVector2) (t : Fixed)
         (style : option TextureStyle),
    frames animation = first :: rest ->
    validTiming (frames animation) (playbackSpeed animation) ->
    exists f,
      In f (frames animation) /\
      getCurrentAnimationFrame animation t = Done (Some f) /\
      drawSprite animation position t style
      = ([DrawTextureRegion (texture f) (sourceRect f)
            (mkRect (vx position) (vy position)
                    (rwidth (sourceRect f)) (rheight (sourceRect f)))
            style],
         Done tt).
Proof.
  intros FM EX animation first rest position t style Hfs V.
  destruct (@resolver_member FM EX animation first rest t Hfs V) as [f [Hin Hf]].
  exists f. split; [exact Hin|]. split; [exact Hf|].
  unfold drawSprite. rewrite Hf. reflexivity.
Qed.

Lemma sprite_draws_one_frame_witness :
  exists f,
    In f threeFrames /\
    getCurrentAnimationFrame (clip true) (Q2Qc (7 # 2)) = Done (Some f) /\
    drawSprite (clip true) origin (Q2Qc (7 # 2)) None
    = ([DrawTextureRegion (texture f) (sourceRect f)
          (mkRect 0%Qc 0%Qc (rwidth (sourceRect f)) (rheight (sourceRect f))) None],
       Done tt).
Proof.
  apply (@sprite_draws_one_frame QcFixed QcExact (clip true)
           (mkFrame 0%nat unitRect 1%Qc)
           [mkFrame 1%nat unitRect 1%Qc; mkFrame 2%nat unitRect 1%Qc]
           origin (Q2Qc (7 # 2)) None).
  - reflexivity.
  - exact validTiming_threeFrames.
Defined.

(** X2: a non-looping animation with valid timing and a non-zero total
    duration shows its last frame at every time that is not before the
    total duration: the time equal to the total included. *)
Theorem clamp_from_total_duration :
  forall (FM : FixedMath) (EX : ExactFixed FM)
         (animation : SpriteAnimation) (first : AnimationFrame)
         (rest : list AnimationFrame) (t total : Fixed),
    frames animation = first :: rest ->
    loop animation = false ->
    validTiming (frames animation) (playbackSpeed animation) ->
    totalDurationFrom (frames animation) (playbackSpeed animation) ZERO = Done total ->
    equals total ZERO = false ->
    lessThan t total = false ->
    getCurrentAnimationFrame animation t = Done (Some (last (frames animation) first)).
Proof.
  intros FM EX animation first rest t total Hfs Hloop V Ht Hnz Hge.
  pose proof (@walkFrames_past_end FM EX (frames animation) (playbackSpeed animation) t V ZERO total Ht Hge) as W.
  unfold getCurrentAnimationFrame. rewrite Ht.
  destruct (frames animation) as [|x xs] eqn:E; [discriminate|].
  injection Hfs as -> ->. simpl. rewrite Hnz, Hloop.
  destruct (greaterThan t total); [reflexivity|].
  unfold frameAt. rewrite E, W. reflexivity.
Qed.

Lemma clamp_from_total_duration_witness :
  getCurrentAnimationFrame (clip false) (Q2Qc 3)
  = Done (Some (last threeFrames (mkFrame 0%nat unitRect 1%Qc))).
Proof.
  apply (@clamp_from_total_duration QcFixed QcExact (clip false)
           (mkFrame 0%nat unitRect 1%Qc)
           [mkFrame 1%nat unitRect 1%Qc; mkFrame 2%nat unitRect 1%Qc]
           (Q2Qc 3) (0 + 1 / 1 + 1 / 1 + 1 / 1)%Qc).
  - reflexivity.
  - reflexivity.
  - exact validTiming_threeFrames.
  - reflexivity.
  - reflexivity.
  - reflexivity.
Defined.

(** X3: in a non-looping animation with valid timing, a frame is returned
    for every time from the total effective duration of the frames before
    it (included) to that total plus its own effective duration
    (excluded). *)
Theorem frame_owns_interval :
  forall (FM : FixedMath) (EX : ExactFixed FM)
         (animation : SpriteAnimation) (pre : list AnimationFrame)
         (f : AnimationFrame) (post : list AnimationFrame) (t before fd : Fixed),
    frames animation = pre ++ f :: post ->
    loop animation = false ->
    validTiming (frames animation) (playbackSpeed animation) ->
    totalDurationFrom pre (playbackSpeed animation) ZERO = Done before ->
    divide (duration f) (playbackSpeed animation) = Some fd ->
    lessThan t before = false ->
    lessThan t (add before fd) = true ->
    getCurrentAnimationFrame animation t = Done (Some f).
Proof.
  intros FM EX animation pre f post t before fd Hfs Hloop V Hb Hf Hlo Hhi.
  assert (V' := V). rewrite Hfs in V'.
  destruct (@validTiming_app FM pre (f :: post) (playbackSpeed animation) V') as [Vpre Vtail].
  pose proof (@validTiming_tail FM f post (playbackSpeed animation) Vtail) as Vpost.
  destruct (@totalDurationFrom_defined FM EX pre (playbackSpeed animation) Vpre ZERO) as [b [Hb' Hb0]].
  rewrite Hb in Hb'. injection Hb' as <-.
  destruct (@totalDurationFrom_defined FM EX post (playbackSpeed animation) Vpost (add before fd)) as [total [Ht Hle]].
  assert (Htotal : totalDurationFrom (frames animation) (playbackSpeed animation) ZERO
                   = Done total).
  { rewrite Hfs, totalDurationFrom_app, Hb. simpl. rewrite Hf. simpl. exact Ht. }
  assert (Hlt : lessThan t total = true).
  { exact (@lessThan_notLess_trans FM EX t (add before fd) total Hhi Hle). }
  assert (Hnz : equals total ZERO = false).
  { destruct (equals total ZERO) eqn:E; [|reflexivity].
    apply equals_spec in E. rewrite E in Hlt.
    pose proof (@notLess_trans FM EX ZERO before t Hb0 Hlo). congruence. }
  pose proof (@walkFrames_half_open FM EX pre f post (playbackSpeed animation) t Vpre ZERO before fd Hb Hf Hlo Hhi) as W.
  rewrite <- Hfs in W.
  unfold getCurrentAnimationFrame. rewrite Htotal.
  destruct (frames animation) as [|x xs] eqn:E.
  { destruct pre; discriminate. }
  simpl. rewrite Hnz, Hloop, greaterThan_spec, (@lessThan_asym FM EX t total Hlt).
  unfold frameAt. rewrite E, W. reflexivity.
Qed.

Lemma frame_owns_interval_witness :
  getCurrentAnimationFrame (clip false) (Q2Qc (3 # 2))
  = Done (Some (mkFrame 1%nat unitRect 1%Qc)).
Proof.
  apply (@frame_owns_interval QcFixed QcExact (clip false)
           [mkFrame 0%nat unitRect 1%Qc] (mkFrame 1%nat unitRect 1%Qc)
           [mkFrame 2%nat unitRect 1%Qc] (Q2Qc (3 # 2)) (0 + 1 / 1)%Qc (1 / 1)%Qc).
  - reflexivity.
  - reflexivity.
  - exact validTiming_threeFrames.
  - reflexivity.
  - reflexivity.
  - reflexivity.
  - reflexivity.
Defined.

(** X4: an animation built by createAnimation from a list of rectangles and
    a non-negative frame duration resolves, at every time, to a frame with
    the given texture, that duration and one of the rectangles; built from
    no rectangle it resolves to null. *)
Theorem createAnimation_resolves :
  forall (FM : FixedMath) (EX : ExactFixed FM)
         (tex : ITexture) (frameRects : list FixedRect) (frameDuration : Fixed)
         (looping : bool) (t : Fixed),
    lessThan frameDuration ZERO = false ->
    (frameRects = [] ->
     getCurrentAnimationFrame (createAnimation tex frameRects frameDuration looping) t
     = Done None) /\
    (frameRects <> [] ->
     exists rect,
       In rect frameRects /\
       getCurrentAnimationFrame (createAnimation tex frameRects frameDuration looping) t
       = Done (Some (mkFrame tex rect frameDuration))).
Proof.
  intros FM EX tex frameRects frameDuration looping t Hd. split.
  - intros ->. reflexivity.
  - intro Hne. destruct frameRects as [|r rs]; [contradiction|].
    assert (V : validTiming (frames (createAnimation tex (r :: rs) frameDuration looping))
                            (playbackSpeed (createAnimation tex (r :: rs) frameDuration looping))).
    { split; [exact (@zero_lessThan_one FM EX)|].
      intros g Hg. simpl in Hg. change (In g (map (fun rect => mkFrame tex rect frameDuration) (r :: rs))) in Hg.
      apply in_map_iff in Hg. destruct Hg as [rect [<- _]]. exact Hd. }
    destruct (@resolver_member FM EX (createAnimation tex (r :: rs) frameDuration looping)
                (mkFrame tex r frameDuration)
                (map (fun rect => mkFrame tex rect frameDuration) rs) t eq_refl V)
      as [f [Hin Hf]].
    change (In f (map (fun rect => mkFrame tex rect frameDuration) (r :: rs))) in Hin.
    apply in_map_iff in Hin. destruct Hin as [rect [<- Hrect]].
    exists rect. split; [exact Hrect|exact Hf].
Qed.

Lemma createAnimation_resolves_witness :
  exists rect,
    In rect [unitRect; unitRect] /\
    getCurrentAnimationFrame (createAnimation 7%nat [unitRect; unitRect] (Q2Qc (1 # 4)) true)
                             (Q2Qc (-3))
    = Done (Some (mkFrame 7%nat rect (Q2Qc (1 # 4)))).
Proof.
  destruct (@createAnimation_resolves QcFixed QcExact 7%nat [unitRect; unitRect]
              (Q2Qc (1 # 4)) true (Q2Qc (-3)) eq_refl) as [_ H].
  apply H. discriminate.
Defined.

(** ** Transforms, stacks and statistics *)

Section TransformRing.
Context {FM : FixedMath}.
Hypothesis R : ring_theory ZERO ONE add multiply subtract negate (@eq Fixed).

Add Ring transformRing : R.

Lemma tmultiply_identity_l (t : Transform2D) : tmultiply identityTransform t = t.
Proof.
  destruct t as [[px py] r [sx sy]]. unfold tmultiply, identityTransform, vadd. simpl.
  f_equal; [f_equal; ring|ring|f_equal; ring].
Qed.

Lemma tmultiply_identity_r (t : Transform2D) : tmultiply t identityTransform = t.
Proof.
  destruct t as [[px py] r [sx sy]]. unfold tmultiply, identityTransform, vadd. simpl.
  f_equal; [f_equal; ring|ring|f_equal; ring].
Qed.

Lemma tmultiply_assoc (a b c : Transform2D) :
  tmultiply (tmultiply a b) c = tmultiply a (tmultiply b c).
Proof.
  unfold tmultiply, vadd. simpl. f_equal; [f_equal; ring|ring|f_equal; ring].
Qed.

Lemma transformPoint_identity (p : FixedVector2) :
  equals ZERO ZERO = true -> transformPoint identityTransform p = p.
Proof.
  intro E. destruct p as [x y]. unfold transformPoint, identityTransform, vadd. simpl.
  rewrite E. simpl. f_equal; ring.
Qed.

End TransformRing.

(** X5: the multiplication of Transform2D is associative and has the
    identity transform as neutral element on both sides, and the identity
    transform leaves every point where it is, as soon as the arithmetic is
    a ring and zero equals zero. *)
Theorem transform_monoid :
  forall (FM : FixedMath),
    ring_theory ZERO ONE add multiply subtract negate (@eq Fixed) ->
    equals ZERO ZERO = true ->
    (forall a b c, tmultiply (tmultiply a b) c = tmultiply a (tmultiply b c)) /\
    (forall t, tmultiply identityTransform t = t /\ tmultiply t identityTransform = t) /\
    (forall p, transformPoint identityTransform p = p).
Proof.
  intros FM R E. split; [exact (tmultiply_assoc R)|]. split.
  - intro t. split; [exact (tmultiply_identity_l R t)|exact (tmultiply_identity_r R t)].
  - intro p. exact (transformPoint_identity R p E).
Qed.

Lemma transform_monoid_witness :
  (forall a b c : @Transform2D QcFixed,
      tmultiply (tmultiply a b) c = tmultiply a (tmultiply b c)) /\
  (forall t : @Transform2D QcFixed,
      tmultiply identityTransform t = t /\ tmultiply t identityTransform = t) /\
  (forall p : @FixedVector2 QcFixed, transformPoint identityTransform p = p).
Proof.
  apply (transform_monoid QcFixed); [exact Qcrt|reflexivity].
Defined.

(** X6: when both scale components are non-zero and division is exact, the
    inverse of a transform exists and is its inverse for the multiplication
    on both sides. *)
Theorem transform_inverse :
  forall (FM : FixedMath) (EX : ExactFixed FM) (t : Transform2D),
    vx (tscale t) <> ZERO ->
    vy (tscale t) <> ZERO ->
    exists i,
      tinverse t = Done i /\
      tmultiply t i = identityTransform /\
      tmultiply i t = identityTransform.
Proof.
  intros FM EX t Hx Hy.
  pose proof (@fixed_ring FM EX) as R.
  destruct (divide_defined ONE Hx) as [ix Hix].
  destruct (divide_defined ONE Hy) as [iy Hiy].
  pose proof (proj1 (divide_spec ONE ix Hx) Hix) as Mx.
  pose proof (proj1 (divide_spec ONE iy Hy) Hiy) as My.
  exists (mkTransform (vnegate (tposition t)) (negate (trotation t)) (mkVec ix iy)).
  split.
  - unfold tinverse. rewrite Hix, Hiy. reflexivity.
  - destruct t as [[px py] r [sx sy]]. simpl in *.
    unfold tmultiply, identityTransform, vadd, vnegate, vZERO, vONE. simpl.
    rewrite (Rmul_comm R sx ix), (Rmul_comm R sy iy), Mx, My.
    rewrite !(Ropp_def R), !(Radd_comm R (negate _)), !(Ropp_def R).
    split; reflexivity.
Qed.

Lemma transform_inverse_witness :
  exists i,
    tinverse sampleTransform = Done i /\
    tmultiply sampleTransform i = identityTransform /\
    tmultiply i sampleTransform = identityTransform.
Proof.
  apply (transform_inverse QcFixed QcExact
           sampleTransform);
    exact Qc_two_nonzero.
Defined.

Lemma popTransforms_last {FM : FixedMath} (n : nat) (st : TransformState) :
  popTransforms (S n) st = fst (popTransform (popTransforms n st)).
Proof.
  revert st. induction n as [|n IH]; intro st; [reflexivity|].
  change (popTransforms (S (S n)) st) with (popTransforms (S n) (fst (popTransform st))).
  rewrite IH. reflexivity.
Qed.

Lemma popTransform_pushTransform {FM : FixedMath} (st : TransformState) (t : Transform2D) :
  popTransform (fst (pushTransform st t)) = (st, [currentTransform st]).
Proof. destruct st. reflexivity. Qed.

Lemma popTransforms_empty {FM : FixedMath} (n : nat) (st : TransformState) :
  transformStack st = [] -> popTransforms n st = st.
Proof.
  intro H. induction n as [|n IH]; [reflexivity|].
  simpl. unfold popTransform. rewrite H. exact IH.
Qed.

Lemma popTransforms_pushTransforms {FM : FixedMath} (ts : list Transform2D) :
  forall st, popTransforms (length ts) (pushTransforms st ts) = st.
Proof.
  induction ts as [|t ts IH]; intro st; [reflexivity|].
  cbn [length]. rewrite popTransforms_last. cbn [pushTransforms].
  rewrite IH, popTransform_pushTransform. reflexivity.
Qed.

Lemma popTransforms_add {FM : FixedMath} (n k : nat) (st : TransformState) :
  popTransforms (n + k) st = popTransforms k (popTransforms n st).
Proof.
  revert st. induction n as [|n IH]; intro st; [reflexivity|]. simpl. apply IH.
Qed.

(** X7: popTransform undoes pushTransform: after any transforms pushed in a
    row, as many pops restore the current transform and the stack, and each
    pop hands the restored transform to the backend.  On an empty stack
    popTransform changes nothing and hands nothing to the backend, so pops
    in excess are harmless. *)
Theorem transform_stack_balanced :
  forall (FM : FixedMath) (st : TransformState) (ts : list Transform2D)
         (t : Transform2D) (k : nat),
    popTransforms (length ts) (pushTransforms st ts) = st /\
    popTransform (fst (pushTransform st t)) = (st, [currentTransform st]) /\
    (transformStack st = [] ->
     popTransform st = (st, []) /\
     popTransforms (length ts + k) (pushTransforms st ts) = st).
Proof.
  intros FM st ts t k.
  split; [apply popTransforms_pushTransforms|].
  split; [apply popTransform_pushTransform|].
  intro H. split.
  - unfold popTransform. rewrite H. reflexivity.
  - rewrite popTransforms_add, popTransforms_pushTransforms.
    now apply popTransforms_empty.
Qed.

Lemma transform_stack_balanced_witness :
  popTransform (mkTransformState [] sampleTransform)
  = (mkTransformState [] sampleTransform, []) /\
  popTransforms (2 + 3)
    (pushTransforms (mkTransformState [] sampleTransform) [sampleTransform; sampleTransform])
  = mkTransformState [] sampleTransform.
Proof.
  apply (transform_stack_balanced QcFixed (mkTransformState [] sampleTransform)
           [sampleTransform; sampleTransform] sampleTransform 3).
  reflexivity.
Defined.

(** X8: pushRenderState saves the current render state: after any
    setRenderState, popRenderState brings back the saved state and the
    saved stack, and hands the restored state to the backend.  On an empty
    stack popRenderState changes nothing and hands nothing to the backend. *)
Theorem render_state_saved_and_restored :
  forall (FM : FixedMath) (st : RenderStateStore) (s : RenderState),
    popRenderState (fst (setRenderState (pushRenderState st) s))
    = (st, [currentRenderState st]) /\
    (renderStateStack st = [] -> popRenderState st = (st, [])).
Proof.
  intros FM st s. split.
  - destruct st. reflexivity.
  - intro H. unfold popRenderState. rewrite H. reflexivity.
Qed.

Lemma render_state_saved_and_restored_witness :
  popRenderState (@mkRenderStateStore QcFixed [] (mkRenderState BlendNormal 1 None None))
  = (@mkRenderStateStore QcFixed [] (mkRenderState BlendNormal 1 None None), []).
Proof.
  apply (render_state_saved_and_restored QcFixed
           (@mkRenderStateStore QcFixed [] (mkRenderState BlendNormal 1 None None))
           (mkRenderState BlendAdd 1 None None)).
  reflexivity.
Defined.

Lemma countCalls_drawCalls {FM : FixedMath} (cs : list DrawCall) :
  forall s, (drawCalls (countCalls s cs) = drawCalls s + length cs)%nat.
Proof.
  unfold countCalls. induction cs as [|c cs IH]; intro s; simpl; [lia|].
  rewrite IH. destruct c; simpl; lia.
Qed.

Lemma countCalls_bounds {FM : FixedMath} (cs : list DrawCall) :
  forall s,
    (triangles s <= vertices s)%nat ->
    (textureBinds s <= drawCalls s)%nat ->
    (triangles (countCalls s cs) <= vertices (countCalls s cs))%nat /\
    (textureBinds (countCalls s cs) <= drawCalls (countCalls s cs))%nat.
Proof.
  unfold countCalls. induction cs as [|c cs IH]; intros s Ht Hb; simpl; [split; assumption|].
  apply IH; destruct c; simpl; lia.
Qed.

(** X9: the statistics count one draw call per primitive issued; starting
    from counters where the triangles do not exceed the vertices and the
    texture bindings do not exceed the draw calls, as after
    resetStatistics, this stays so after any primitives. *)
Theorem statistics_invariants :
  forall (FM : FixedMath) (s : RenderStatistics) (cs : list DrawCall),
    (triangles s <= vertices s)%nat ->
    (textureBinds s <= drawCalls s)%nat ->
    (drawCalls (countCalls s cs) = drawCalls s + length cs)%nat /\
    (triangles (countCalls s cs) <= vertices (countCalls s cs))%nat /\
    (textureBinds (countCalls s cs) <= drawCalls (countCalls s cs))%nat.
Proof.
  intros FM s cs Ht Hb. split; [apply countCalls_drawCalls|].
  now apply countCalls_bounds.
Qed.

Lemma statistics_invariants_witness :
  (drawCalls (countCalls resetStatistics
                (calls (@drawArrow QcFixed (Q2Qc 2) origin samplePoint red None)))
   = 0 + length (calls (@drawArrow QcFixed (Q2Qc 2) origin samplePoint red None)))%nat /\
  (triangles (countCalls resetStatistics
                (calls (@drawArrow QcFixed (Q2Qc 2) origin samplePoint red None)))
   <= vertices (countCalls resetStatistics
                  (calls (@drawArrow QcFixed (Q2Qc 2) origin samplePoint red None))))%nat /\
  (textureBinds (countCalls resetStatistics
                   (calls (@drawArrow QcFixed (Q2Qc 2) origin samplePoint red None)))
   <= drawCalls (countCalls resetStatistics
                   (calls (@drawArrow QcFixed (Q2Qc 2) origin samplePoint red None))))%nat.
Proof.
  apply (statistics_invariants QcFixed resetStatistics
           (calls (@drawArrow QcFixed (Q2Qc 2) origin samplePoint red None))).
  - simpl. lia.
  - simpl. lia.
Defined.

(** ** More on the camera *)

Section CameraMore.
Context {FM : FixedMath}.
Hypothesis R : ring_theory ZERO ONE add multiply subtract negate (@eq Fixed).

Add Ring cameraMoreRing : R.

Lemma rotateBy_zero (a : Fixed) : rotateBy a (mkVec ZERO ZERO) = mkVec ZERO ZERO.
Proof. unfold rotateBy. simpl. f_equal; ring. Qed.

Lemma rotateBy_negate_back (r : Fixed) (v : FixedVector2) :
  exactTrig r -> rotateBy r (rotateBy (negate r) v) = v.
Proof.
  intros [Hc [Hs H1]]. destruct v as [x y]. unfold rotateBy. simpl.
  rewrite Hc, Hs. set (c := cosFixed r) in *. set (s := sinFixed r) in *.
  f_equal.
  - transitivity (multiply x (add (multiply c c) (multiply s s))); [ring|].
    rewrite H1. ring.
  - transitivity (multiply y (add (multiply c c) (multiply s s))); [ring|].
    rewrite H1. ring.
Qed.

Lemma worldToScreen_of_position (camera : CameraConfig) (viewport : Viewport) :
  worldToScreen camera viewport (position camera) = Done (screenCenter viewport).
Proof.
  unfold worldToScreen, vsubtract. simpl.
  rewrite !(subtract_diag R), !(Rmul_comm R ZERO), !(multiply_ZERO_r R).
  destruct (negb (equals (rotation camera) ZERO)).
  - rewrite rotateBy_zero. unfold vadd. simpl. now rewrite !(add_ZERO_r R).
  - unfold vadd. simpl. now rewrite !(add_ZERO_r R).
Qed.

End CameraMore.

Lemma vec_eta {FM : FixedMath} (v : FixedVector2) : mkVec (vx v) (vy v) = v.
Proof. now destruct v. Qed.

(** X10: whatever the zoom and the rotation, worldToScreen sends the camera
    position to the centre of the viewport, as soon as the arithmetic is a
    ring. *)
Theorem camera_position_on_screen_centre :
  forall (FM : FixedMath) (camera : CameraConfig) (viewport : Viewport),
    ring_theory ZERO ONE add multiply subtract negate (@eq Fixed) ->
    worldToScreen camera viewport (position camera) = Done (screenCenter viewport).
Proof.
  intros FM camera viewport R. exact (worldToScreen_of_position R camera viewport).
Qed.

Lemma camera_position_on_screen_centre_witness :
  worldToScreen (sampleCamera (Q2Qc 2) 1%Qc) screen800x600
                (position (sampleCamera (Q2Qc 2) 1%Qc))
  = Done (screenCenter screen800x600).
Proof.
  apply (camera_position_on_screen_centre QcFixed (sampleCamera (Q2Qc 2) 1%Qc)
           screen800x600 Qcrt).
Defined.

(** X11: with exact arithmetic and a non-zero zoom, screenToWorld sends the
    centre of the viewport to the camera position, whatever the rotation. *)
Theorem screen_centre_is_camera_position :
  forall (FM : FixedMath) (EX : ExactFixed FM)
         (camera : CameraConfig) (viewport : Viewport),
    zoom camera <> ZERO ->
    screenToWorld camera viewport (screenCenter viewport) = Done (position camera).
Proof.
  intros FM EX camera viewport Hz.
  pose proof (@fixed_ring FM EX) as R.
  assert (Hd : divide ZERO (zoom camera) = Some ZERO).
  { apply divide_spec; [exact Hz|].
    rewrite (Rmul_comm R). apply (multiply_ZERO_r R). }
  unfold screenToWorld, vsubtract. rewrite !(subtract_diag R).
  destruct (negb (equals (rotation camera) ZERO)).
  - rewrite (rotateBy_zero R). simpl. rewrite Hd. simpl.
    unfold vadd. simpl. rewrite !(Radd_0_l R). now destruct (position camera).
  - simpl. rewrite Hd. simpl.
    unfold vadd. simpl. rewrite !(Radd_0_l R). now destruct (position camera).
Qed.

Lemma screen_centre_is_camera_position_witness :
  screenToWorld (sampleCamera (Q2Qc 2) 1%Qc) screen800x600 (screenCenter screen800x600)
  = Done (position (sampleCamera (Q2Qc 2) 1%Qc)).
Proof.
  apply (screen_centre_is_camera_position QcFixed QcExact (sampleCamera (Q2Qc 2) 1%Qc)
           screen800x600 Qc_two_nonzero).
Defined.

(** X12: with exact arithmetic, a non-zero zoom and either rotation 0 or a
    sine and cosine free of rounding error, a screen point converted to the
    world and back to the screen is the same point. *)
Theorem screen_round_trip :
  forall (FM : FixedMath) (EX : ExactFixed FM)
         (camera : CameraConfig) (viewport : Viewport) (s : FixedVector2),
    zoom camera <> ZERO ->
    equals (rotation camera) ZERO = true \/ exactTrig (rotation camera) ->
    obind (screenToWorld camera viewport s) (worldToScreen camera viewport) = Done s.
Proof.
  intros FM EX camera viewport s Hz Hrot.
  pose proof (@fixed_ring FM EX) as R.
  unfold screenToWorld.
  set (u := if negb (equals (rotation camera) ZERO)
            then rotateBy (negate (rotation camera)) (vsubtract s (screenCenter viewport))
            else vsubtract s (screenCenter viewport)).
  destruct (divide_defined (vx u) Hz) as [qx Hqx].
  destruct (divide_defined (vy u) Hz) as [qy Hqy].
  pose proof (proj1 (divide_spec (vx u) qx Hz) Hqx) as Mx.
  pose proof (proj1 (divide_spec (vy u) qy Hz) Hqy) as My.
  rewrite Hqx, Hqy. simpl.
  unfold worldToScreen. f_equal.
  assert (Hrel : vsubtract (vadd (mkVec qx qy) (position camera)) (position camera)
                 = mkVec qx qy).
  { unfold vsubtract, vadd. simpl. f_equal.
    - rewrite (Radd_comm R). apply (subtract_add_cancel R).
    - rewrite (Radd_comm R). apply (subtract_add_cancel R). }
  rewrite Hrel. simpl. rewrite Mx, My.
  assert (Hu : (if negb (equals (rotation camera) ZERO)
                then rotateBy (rotation camera) (mkVec (vx u) (vy u))
                else mkVec (vx u) (vy u))
               = vsubtract s (screenCenter viewport)).
  { rewrite vec_eta. subst u.
    destruct (equals (rotation camera) ZERO) eqn:E; cbn [negb]; [reflexivity|].
    destruct Hrot as [H|H]; [discriminate|].
    exact (rotateBy_negate_back R (rotation camera)
             (vsubtract s (screenCenter viewport)) H). }
  rewrite Hu. unfold vadd, vsubtract. simpl.
  destruct s as [sx sy]. simpl. f_equal.
  - rewrite (Radd_comm R). apply (add_subtract_cancel R).
  - rewrite (Radd_comm R). apply (add_subtract_cancel R).
Qed.

Lemma screen_round_trip_witness :
  obind (screenToWorld (sampleCamera (Q2Qc 2) 1%Qc) screen800x600 samplePoint)
        (worldToScreen (sampleCamera (Q2Qc 2) 1%Qc) screen800x600)
  = Done samplePoint.
Proof.
  apply (screen_round_trip QcFixed QcExact (sampleCamera (Q2Qc 2) 1%Qc)
           screen800x600 samplePoint Qc_two_nonzero).
  right. apply Qc_exactTrig.
Defined.

(** ** Debug and physics shapes *)

Section RenderLemmas.
Context {FM : FixedMath}.

Lemma bind_done {A B : Type} (m : Render A) (f : A -> Render B) (b : B) :
  result (bind m f) = Done b ->
  exists a, result m = Done a /\ result (f a) = Done b /\
            calls (bind m f) = calls m ++ calls (f a).
Proof.
  destruct m as [cs [a|]]; unfold bind, result, calls; simpl.
  - intro H. exists a. destruct (f a) as [cs' r]. simpl in *.
    split; [reflexivity|]. split; [exact H|reflexivity].
  - discriminate.
Qed.

Lemma bind_unit_done {B : Type} (m : Render unit) (f : unit -> Render B) (b : B) :
  result (bind m f) = Done b ->
  result m = Done tt /\ result (f tt) = Done b /\
  calls (bind m f) = calls m ++ calls (f tt).
Proof.
  intro H. destruct (bind_done m f b H) as [[] [H1 [H2 H3]]]. repeat split; assumption.
Qed.

Lemma ret_calls {A : Type} (a : A) : calls (ret a) = [].
Proof. reflexivity. Qed.

End RenderLemmas.

(** X13: with showAxis off drawAxis draws nothing.  With showAxis on,
    whenever it returns it has issued six lines: the red shaft from the
    origin to the origin moved by the scale along x with its two head
    lines, then the green shaft to the origin moved by the scale along y
    with its two head lines. *)
Theorem axis_two_arrows :
  forall (FM : FixedMath) (showAxis : bool) (axisLength : Fixed) (axisX axisY : Color)
         (origin : FixedVector2) (scale : Fixed),
    (showAxis = false ->
     drawAxis showAxis axisLength axisX axisY origin scale = ([], Done tt)) /\
    (showAxis = true ->
     result (drawAxis showAxis axisLength axisX axisY origin scale) = Done tt ->
     exists xl xr yl yr,
       calls (drawAxis showAxis axisLength axisX axisY origin scale)
       = [DrawLine origin (vadd origin (mkVec scale ZERO)) (solidLine axisX);
          DrawLine (vadd origin (mkVec scale ZERO)) xl (solidLine axisX);
          DrawLine (vadd origin (mkVec scale ZERO)) xr (solidLine axisX);
          DrawLine origin (vadd origin (mkVec ZERO scale)) (solidLine axisY);
          DrawLine (vadd origin (mkVec ZERO scale)) yl (solidLine axisY);
          DrawLine (vadd origin (mkVec ZERO scale)) yr (solidLine axisY)]).
Proof.
  intros FM showAxis axisLength axisX axisY origin scale. split.
  - intros ->. reflexivity.
  - intros -> H. unfold drawAxis in *. cbn [negb] in *.
    destruct (bind_unit_done _ _ tt H) as [H1 [H2 H3]].
    destruct (drawArrow_three_lines axisLength origin (vadd origin (mkVec scale ZERO))
                axisX (Some (fromNumber (2 # 10))) H1) as [xl [xr Hx]].
    destruct (drawArrow_three_lines axisLength origin (vadd origin (mkVec ZERO scale))
                axisY (Some (fromNumber (2 # 10))) H2) as [yl [yr Hy]].
    exists xl, xr, yl, yr. rewrite H3, Hx, Hy. reflexivity.
Qed.

Lemma axis_two_arrows_witness :
  length (calls (@drawAxis QcFixed true (Q2Qc 2) red red origin (Q2Qc 2))) = 6%nat.
Proof.
  destruct (axis_two_arrows QcFixed true (Q2Qc 2) red red origin (Q2Qc 2)) as [_ H].
  destruct (H eq_refl eq_refl) as [xl [xr [yl [yr E]]]].
  rewrite E. reflexivity.
Defined.

Section ShapeRing.
Context {FM : FixedMath}.
Hypothesis R : ring_theory ZERO ONE add multiply subtract negate (@eq Fixed).

Add Ring shapeRing : R.

Lemma centred_pair (x h : Fixed) : add (subtract x h) (add x h) = add x x.
Proof. ring. Qed.

Lemma opposite_corners (center : FixedVector2) (a : Fixed) (hx hy : Fixed) :
  vadd (vadd center (rotateBy a (mkVec (negate hx) (negate hy))))
       (vadd center (rotateBy a (mkVec hx hy)))
  = vadd center center /\
  vadd (vadd center (rotateBy a (mkVec hx (negate hy))))
       (vadd center (rotateBy a (mkVec (negate hx) hy)))
  = vadd center center.
Proof.
  destruct center as [cx cy]. unfold vadd, rotateBy. simpl.
  split; f_equal; ring.
Qed.

Lemma local_axes_perpendicular (c s k : Fixed) :
  add (multiply (multiply c k) (multiply (negate s) k))
      (multiply (multiply s k) (multiply c k)) = ZERO.
Proof. ring. Qed.

Lemma span_to_far_corner (lo hi : Fixed) : add lo (subtract hi lo) = hi.
Proof. ring. Qed.

End ShapeRing.

(** X14: drawCrosshair returns exactly when the division of the size by 2
    does; it then has issued two lines, the first at the height of the
    position, the second at its abscissa, and in a ring both have the
    position as their middle.  When the division raises, nothing is
    drawn. *)
Theorem crosshair_centred :
  forall (FM : FixedMath) (position : FixedVector2) (size : Fixed) (c : Color),
    ring_theory ZERO ONE add multiply subtract negate (@eq Fixed) ->
    (divide size (fromNumber 2) = None ->
     drawCrosshair position size c = ([], Raised)) /\
    (forall half, divide size (fromNumber 2) = Some half ->
     exists a b u v,
       drawCrosshair position size c
       = ([DrawLine a b (solidLine c); DrawLine u v (solidLine c)], Done tt) /\
       vy a = vy position /\ vy b = vy position /\
       vx u = vx position /\ vx v = vx position /\
       vadd a b = vadd position position /\
       vadd u v = vadd position position).
Proof.
  intros FM position size c R. split.
  - intro H. unfold drawCrosshair. rewrite H. reflexivity.
  - intros half H.
    exists (mkVec (subtract (vx position) half) (vy position)),
           (mkVec (add (vx position) half) (vy position)),
           (mkVec (vx position) (subtract (vy position) half)),
           (mkVec (vx position) (add (vy position) half)).
    split; [unfold drawCrosshair; rewrite H; reflexivity|].
    repeat (split; [reflexivity|]).
    unfold vadd. simpl. now rewrite !(centred_pair R).
Qed.

Lemma crosshair_centred_witness :
  exists a b u v,
    @drawCrosshair QcFixed samplePoint (Q2Qc 2) red
    = ([DrawLine a b (solidLine red); DrawLine u v (solidLine red)], Done tt) /\
    vy a = vy samplePoint /\ vy b = vy samplePoint /\
    vx u = vx samplePoint /\ vx v = vx samplePoint /\
    vadd a b = vadd samplePoint samplePoint /\
    vadd u v = vadd samplePoint samplePoint.
Proof.
  destruct (crosshair_centred QcFixed samplePoint (Q2Qc 2) red Qcrt) as [_ H].
  apply (H (Q2Qc 2 / Q2Qc 2)%Qc). reflexivity.
Defined.

(** X15: when both halvings of the size return, drawBoxCollider issues one
    polygon of four corners, and in a ring opposite corners are symmetric
    about the centre, whatever the sine and cosine of the rotation are. *)
Theorem box_collider_symmetric :
  forall (FM : FixedMath) (cfg : PhysicsDebugConfig) (center size : FixedVector2)
         (rotation : Fixed) (filled : bool) (hx hy : Fixed),
    ring_theory ZERO ONE add multiply subtract negate (@eq Fixed) ->
    divide (vx size) (fromNumber 2) = Some hx ->
    divide (vy size) (fromNumber 2) = Some hy ->
    exists v0 v1 v2 v3,
      drawBoxCollider cfg center size rotation filled
      = ([DrawPolygon [v0; v1; v2; v3] (colliderStyle cfg filled)], Done tt) /\
      vadd v0 v2 = vadd center center /\
      vadd v1 v3 = vadd center center.
Proof.
  intros FM cfg center size rotation filled hx hy R Hx Hy.
  destruct (opposite_corners R center rotation hx hy) as [S1 S2].
  eexists. eexists. eexists. eexists. split.
  - unfold drawBoxCollider. rewrite Hx. simpl. rewrite Hy. reflexivity.
  - split; [exact S1|exact S2].
Qed.

(** X16: with showLocalAxes off drawBodyTransform draws nothing.  With it
    on, whenever it returns it has issued two arrows of three lines from
    the position, and in a ring the two axis vectors are perpendicular,
    whatever the sine and cosine of the rotation are. *)
Theorem body_axes_perpendicular :
  forall (FM : FixedMath) (axisLength : Fixed) (cfg : PhysicsDebugConfig)
         (position : FixedVector2) (rotation : Fixed),
    ring_theory ZERO ONE add multiply subtract negate (@eq Fixed) ->
    (showLocalAxes cfg = false ->
     drawBodyTransform axisLength cfg position rotation = ([], Done tt)) /\
    (showLocalAxes cfg = true ->
     result (drawBodyTransform axisLength cfg position rotation) = Done tt ->
     exists xAxis yAxis xl xr yl yr,
       calls (drawBodyTransform axisLength cfg position rotation)
       = [DrawLine position (vadd position xAxis) (solidLine (localAxisColor (colors cfg)));
          DrawLine (vadd position xAxis) xl (solidLine (localAxisColor (colors cfg)));
          DrawLine (vadd position xAxis) xr (solidLine (localAxisColor (colors cfg)));
          DrawLine position (vadd position yAxis) (solidLine (localAxisColor (colors cfg)));
          DrawLine (vadd position yAxis) yl (solidLine (localAxisColor (colors cfg)));
          DrawLine (vadd position yAxis) yr (solidLine (localAxisColor (colors cfg)))] /\
       add (multiply (vx xAxis) (vx yAxis)) (multiply (vy xAxis) (vy yAxis)) = ZERO).
Proof.
  intros FM axisLength cfg position rotation R. split.
  - intro H. unfold drawBodyTransform. rewrite H. reflexivity.
  - intros Hshow H. unfold drawBodyTransform in *. rewrite Hshow in *.
    destruct (bind_unit_done _ _ tt H) as [H1 [H2 H3]].
    set (k := multiply (centerOfMassSize cfg) (fromNumber 2)) in *.
    set (xAxis := vmultiply (mkVec (cosFixed rotation) (sinFixed rotation)) k) in *.
    set (yAxis := vmultiply (mkVec (negate (sinFixed rotation)) (cosFixed rotation)) k) in *.
    destruct (drawArrow_three_lines axisLength position (vadd position xAxis)
                (localAxisColor (colors cfg)) None H1) as [xl [xr Hx]].
    destruct (drawArrow_three_lines axisLength position (vadd position yAxis)
                (localAxisColor (colors cfg)) None H2) as [yl [yr Hy]].
    exists xAxis, yAxis, xl, xr, yl, yr. split.
    + rewrite H3, Hx, Hy. reflexivity.
    + subst xAxis yAxis. unfold vmultiply. simpl. apply (local_axes_perpendicular R).
Qed.

(** X17: drawBodyAABB issues one rectangle that starts at the lower corner,
    and in a ring the rectangle's origin plus its size is the upper
    corner. *)
Theorem aabb_spans_corners :
  forall (FM : FixedMath) (cfg : PhysicsDebugConfig) (lo hi : FixedVector2),
    ring_theory ZERO ONE add multiply subtract negate (@eq Fixed) ->
    exists bounds,
      drawBodyAABB cfg lo hi
      = ([DrawRect bounds (strokeOnly (aabbColor (colors cfg)))], Done tt) /\
      mkVec (rx bounds) (ry bounds) = lo /\
      mkVec (add (rx bounds) (rwidth bounds)) (add (ry bounds) (rheight bounds)) = hi.
Proof.
  intros FM cfg lo hi R. eexists. split; [reflexivity|]. simpl. split.
  - apply vec_eta.
  - rewrite !(span_to_far_corner R). apply vec_eta.
Qed.

Lemma box_collider_symmetric_witness :
  exists v0 v1 v2 v3,
    @drawBoxCollider QcFixed everythingShown origin samplePoint 1%Qc false
    = ([DrawPolygon [v0; v1; v2; v3] (colliderStyle everythingShown false)], Done tt) /\
    vadd v0 v2 = vadd origin origin /\
    vadd v1 v3 = vadd origin origin.
Proof.
  apply (box_collider_symmetric QcFixed everythingShown origin samplePoint 1%Qc false
           (Q2Qc 3 / Q2Qc 2)%Qc (Q2Qc 4 / Q2Qc 2)%Qc Qcrt); reflexivity.
Defined.

Lemma body_axes_perpendicular_witness :
  exists xAxis yAxis,
    nth_error (calls (@drawBodyTransform QcFixed (Q2Qc 2) everythingShown origin 1%Qc)) 0
    = Some (DrawLine origin (vadd origin xAxis)
              (solidLine (localAxisColor (colors everythingShown)))) /\
    nth_error (calls (@drawBodyTransform QcFixed (Q2Qc 2) everythingShown origin 1%Qc)) 3
    = Some (DrawLine origin (vadd origin yAxis)
              (solidLine (localAxisColor (colors everythingShown)))) /\
    (vx xAxis * vx yAxis + vy xAxis * vy yAxis)%Qc = 0%Qc.
Proof.
  destruct (body_axes_perpendicular QcFixed (Q2Qc 2) everythingShown origin 1%Qc Qcrt)
    as [_ H].
  destruct (H eq_refl eq_refl) as [xAxis [yAxis [xl [xr [yl [yr [E D]]]]]]].
  exists xAxis, yAxis. rewrite E. split; [reflexivity|]. split; [reflexivity|exact D].
Defined.

Lemma aabb_spans_corners_witness :
  exists bounds,
    @drawBodyAABB QcFixed everythingShown origin samplePoint
    = ([DrawRect bounds (strokeOnly (aabbColor (colors everythingShown)))], Done tt) /\
    mkVec (rx bounds) (ry bounds) = origin /\
    mkVec (rx bounds + rwidth bounds)%Qc (ry bounds + rheight bounds)%Qc = samplePoint.
Proof.
  apply (aabb_spans_corners QcFixed everythingShown origin samplePoint Qcrt).
Defined.






Lemma angularSegments_map {FM : FixedMath} (cfg : PhysicsDebugConfig) (n : nat)
    (position : FixedVector2) (radius angleStep : Fixed) :
  forall i,
    angularSegments cfg n position radius angleStep i
    = (map (angularSegment cfg position radius angleStep) (seq i n), Done tt).
Proof.
  induction n as [|n IH]; intro i; [reflexivity|].
  cbn [angularSegments seq map]. rewrite IH. reflexivity.
Qed.

(** X19: when the division of two pi by 12 returns, drawAngularVelocity
    issues twelve lines, and each line starts where the previous one
    stops. *)
Theorem angular_velocity_chain :
  forall (FM : FixedMath) (cfg : PhysicsDebugConfig) (twoPi : Q)
         (position : FixedVector2) (angularVelocity angleStep : Fixed),
    divide (fromNumber twoPi) (fromNumber 12) = Some angleStep ->
    drawAngularVelocity cfg twoPi position angularVelocity
    = (map (angularSegment cfg position
              (multiply (centerOfMassSize cfg) (fromNumber (15 # 10))) angleStep)
           (seq 0 12),
       Done tt) /\
    forall i,
      lineStop (angularSegment cfg position
                  (multiply (centerOfMassSize cfg) (fromNumber (15 # 10))) angleStep i)
      = lineStart (angularSegment cfg position
                     (multiply (centerOfMassSize cfg) (fromNumber (15 # 10))) angleStep (S i)).
Proof.
  intros FM cfg twoPi position angularVelocity angleStep H. split.
  - unfold drawAngularVelocity. rewrite H. cbn [lift ofOption bind].
    rewrite angularSegments_map. reflexivity.
  - intro i. unfold angularSegment, lineStop, lineStart.
    rewrite !Nat.add_1_r. reflexivity.
Qed.

Lemma angular_velocity_chain_witness :
  length (calls (@drawAngularVelocity QcFixed everythingShown twoPiNumber origin 1%Qc))
  = 12%nat.
Proof.
  destruct (angular_velocity_chain QcFixed everythingShown twoPiNumber origin 1%Qc
              (Q2Qc twoPiNumber / Q2Qc 12)%Qc eq_refl) as [E _].
  rewrite E. reflexivity.
Defined.




Lemma drawFixtures_nothing {FM : FixedMath} (n : nat) (c : Color) :
  drawFixtures n c = ([], Done tt).
Proof.
  induction n as [|n IH]; [reflexivity|]. cbn [drawFixtures]. rewrite IH. reflexivity.
Qed.

Lemma drawBodyParts_colour {FM : FixedMath} (axisLength : Fixed)
    (cfg : PhysicsDebugConfig) (info : BodyInfo) (c1 c2 : Color) :
  drawBodyParts axisLength cfg info c1 = drawBodyParts axisLength cfg info c2.
Proof.
  unfold drawBodyParts.
  assert (E : forall c, (match showShapes cfg, fixtureCount info with
                         | true, Some n => drawFixtures n c
                         | _, _ => ret tt
                         end) = ret tt).
  { intro c. destruct (showShapes cfg), (fixtureCount info); try reflexivity.
    apply drawFixtures_nothing. }
  rewrite (E c1), (E c2). reflexivity.
Qed.

(** X21: drawRigidBody draws nothing when showBodies is off, when the
    backend has no information for the body, when the body's type is none
    of static, kinematic and dynamic, and when the switch of the body's
    type is off. *)
Theorem rigid_body_hidden :
  forall (FM : FixedMath) (axisLength : Fixed) (cfg : PhysicsDebugConfig)
         (info : BodyInfo),
    (showBodies cfg = false ->
     drawRigidBody axisLength cfg (Some info) = ([], Done tt)) /\
    drawRigidBody axisLength cfg None = ([], Done tt) /\
    (bodyType info = OtherBody ->
     drawRigidBody axisLength cfg (Some info) = ([], Done tt)) /\
    (bodyType info = StaticBody -> showStaticBodies cfg = false ->
     drawRigidBody axisLength cfg (Some info) = ([], Done tt)) /\
    (bodyType info = KinematicBody -> showKinematicBodies cfg = false ->
     drawRigidBody axisLength cfg (Some info) = ([], Done tt)) /\
    (bodyType info = DynamicBody -> showDynamicBodies cfg = false ->
     drawRigidBody axisLength cfg (Some info) = ([], Done tt)).
Proof.
  intros FM axisLength cfg info. unfold drawRigidBody.
  split; [intros ->; reflexivity|].
  split; [destruct (showBodies cfg); reflexivity|].
  split; [intros ->; destruct (showBodies cfg); reflexivity|].
  split; [intros -> ->; destruct (showBodies cfg); reflexivity|].
  split; intros -> ->; destruct (showBodies cfg); reflexivity.
Qed.

Lemma rigid_body_hidden_witness :
  @drawRigidBody QcFixed (Q2Qc 2) everythingShown
    (Some (mkBodyInfo OtherBody false origin 0%Qc origin None None None None))
  = ([], Done tt).
Proof.
  destruct (rigid_body_hidden QcFixed (Q2Qc 2) everythingShown
              (mkBodyInfo OtherBody false origin 0%Qc origin None None None None))
    as [_ [_ [H _]]].
  apply H. reflexivity.
Defined.

(** X22: in the base class the colour chosen for a body is used for
    nothing: the fixtures draw nothing, so what drawRigidBody issues for a
    dynamic body is the same whether the body sleeps or not. *)
Theorem rigid_body_colour_unused :
  forall (FM : FixedMath) (axisLength : Fixed) (cfg : PhysicsDebugConfig)
         (position : FixedVector2) (rotation : Fixed) (centerOfMass : FixedVector2)
         (aabb : option (FixedVector2 * FixedVector2))
         (velocity force : option FixedVector2) (fixtures : option nat)
         (asleep : bool),
    drawRigidBody axisLength cfg
      (Some (mkBodyInfo DynamicBody asleep position rotation centerOfMass
                        aabb velocity force fixtures))
    = drawRigidBody axisLength cfg
        (Some (mkBodyInfo DynamicBody (negb asleep) position rotation centerOfMass
                          aabb velocity force fixtures)).
Proof.
  intros FM axisLength cfg position rotation centerOfMass aabb velocity force fixtures asleep.
  unfold drawRigidBody. cbn [bodyType sleeping].
  destruct (showBodies cfg); [|reflexivity]. cbn [negb].
  destruct (showDynamicBodies cfg); [|reflexivity]. cbn [negb].
  rewrite (drawBodyParts_colour axisLength cfg _
             (if asleep && showSleepingBodies cfg
              then sleepingBodyColor (colors cfg) else dynamicBodyColor (colors cfg))
             (dynamicBodyColor (colors cfg))).
  rewrite (drawBodyParts_colour axisLength cfg _
             (if negb asleep && showSleepingBodies cfg
              then sleepingBodyColor (colors cfg) else dynamicBodyColor (colors cfg))
             (dynamicBodyColor (colors cfg))).
  reflexivity.
Qed.

(** ** The lines of a grid *)

Lemma stepFrom_next {FM : FixedMath} (x spacing : Fixed) (i : nat) :
  stepFrom (add x spacing) spacing i = stepFrom x spacing (S i).
Proof.
  unfold stepFrom. rewrite Nat.iter_succ_r. reflexivity.
Qed.

Lemma verticalLines_trace {FM : FixedMath} (bounds : FixedRect) (spacing endX : Fixed)
    (style : GridStyle) :
  forall fuel x k cs,
    verticalLines fuel bounds spacing endX style x k = (cs, Some (Done tt)) ->
    (forall i, (i < length cs)%nat ->
       nth_error cs i
       = Some (DrawLine (mkVec (stepFrom x spacing i) (ry bounds))
                        (mkVec (stepFrom x spacing i) (add (ry bounds) (rheight bounds)))
                        (gridLineStyle style (k + i))) /\
       lessThanOrEqual (stepFrom x spacing i) endX = true) /\
    lessThanOrEqual (stepFrom x spacing (length cs)) endX = false.
Proof.
  induction fuel as [|fuel IH]; intros x k cs H; cbn [verticalLines] in H.
  - discriminate.
  - destruct (lessThanOrEqual x endX) eqn:E.
    + unfold runBind, runOf, emit in H. cbn [fst snd] in H.
      destruct (verticalLines fuel bounds spacing endX style (add x spacing) (S k))
        as [cs' r] eqn:Erec.
      injection H as <- ->.
      destruct (IH _ _ _ Erec) as [I1 I2]. split.
      * intros [|i] Hi.
        -- cbn. rewrite Nat.add_0_r. split; [reflexivity|exact E].
        -- cbn [app length] in Hi. apply Nat.succ_lt_mono in Hi.
           destruct (I1 i Hi) as [N L]. rewrite stepFrom_next in N, L.
           rewrite Nat.add_succ_r. split; [exact N|exact L].
      * cbn [app length]. rewrite <- stepFrom_next. exact I2.
    + injection H as <-. split.
      * intros i Hi. cbn in Hi. lia.
      * exact E.
Qed.

Lemma horizontalLines_trace {FM : FixedMath} (bounds : FixedRect) (spacing endY : Fixed)
    (style : GridStyle) :
  forall fuel y k cs,
    horizontalLines fuel bounds spacing endY style y k = (cs, Some (Done tt)) ->
    (forall i, (i < length cs)%nat ->
       nth_error cs i
       = Some (DrawLine (mkVec (rx bounds) (stepFrom y spacing i))
                        (mkVec (add (rx bounds) (rwidth bounds)) (stepFrom y spacing i))
                        (gridLineStyle style (k + i))) /\
       lessThanOrEqual (stepFrom y spacing i) endY = true) /\
    lessThanOrEqual (stepFrom y spacing (length cs)) endY = false.
Proof.
  induction fuel as [|fuel IH]; intros y k cs H; cbn [horizontalLines] in H.
  - discriminate.
  - destruct (lessThanOrEqual y endY) eqn:E.
    + unfold runBind, runOf, emit in H. cbn [fst snd] in H.
      destruct (horizontalLines fuel bounds spacing endY style (add y spacing) (S k))
        as [cs' r] eqn:Erec.
      injection H as <- ->.
      destruct (IH _ _ _ Erec) as [I1 I2]. split.
      * intros [|i] Hi.
        -- cbn. rewrite Nat.add_0_r. split; [reflexivity|exact E].
        -- cbn [app length] in Hi. apply Nat.succ_lt_mono in Hi.
           destruct (I1 i Hi) as [N L]. rewrite stepFrom_next in N, L.
           rewrite Nat.add_succ_r. split; [exact N|exact L].
      * cbn [app length]. rewrite <- stepFrom_next. exact I2.
    + injection H as <-. split.
      * intros i Hi. cbn in Hi. lia.
      * exact E.
Qed.

Lemma gridLineStyle_major {FM : FixedMath} (style : GridStyle) (major : LineStyle)
    (n i : nat) :
  majorLineStyle style = Some major ->
  majorLineInterval style = Some (S n) ->
  gridLineStyle style (i * S n) = major.
Proof.
  intros Hm Hi. unfold gridLineStyle. rewrite Hm, Hi.
  rewrite Nat.Div0.mod_mul. reflexivity.
Qed.

(** X23: whenever drawGrid returns with the grid shown, its calls are the
    vertical lines followed by the horizontal lines.  Vertical line [i]
    spans the height of the view at the snapped start
    [floor(x / spacing) * spacing] moved [i] times by the spacing, and is
    within the far bound; the position after the last one is beyond it.
    The same holds for the horizontal lines.  The line count that selects
    the major style restarts at 0 for the horizontal lines, and with a major
    style and a non-zero interval every line whose number is a multiple of
    the interval is major, the first of each axis included. *)
Theorem grid_lines :
  forall (FM : FixedMath) (fuel : nat)
         (toWorld : FixedVector2 -> outcome FixedVector2) (viewport : Viewport)
         (spacing : Fixed) (style : GridStyle) (cs : list DrawCall),
    drawGrid fuel true toWorld viewport spacing style = (cs, Some (Done tt)) ->
    (exists bounds qx qy vs hs,
      getViewBounds toWorld viewport = Done bounds /\
      divide (rx bounds) spacing = Some qx /\
      divide (ry bounds) spacing = Some qy /\
      cs = vs ++ hs /\
      (forall i, (i < length vs)%nat ->
         nth_error vs i
         = Some (DrawLine
                   (mkVec (stepFrom (multiply (floor qx) spacing) spacing i) (ry bounds))
                   (mkVec (stepFrom (multiply (floor qx) spacing) spacing i)
                          (add (ry bounds) (rheight bounds)))
                   (gridLineStyle style i)) /\
         lessThanOrEqual (stepFrom (multiply (floor qx) spacing) spacing i)
                         (add (rx bounds) (rwidth bounds)) = true) /\
      lessThanOrEqual (stepFrom (multiply (floor qx) spacing) spacing (length vs))
                      (add (rx bounds) (rwidth bounds)) = false /\
      (forall j, (j < length hs)%nat ->
         nth_error hs j
         = Some (DrawLine
                   (mkVec (rx bounds) (stepFrom (multiply (floor qy) spacing) spacing j))
                   (mkVec (add (rx bounds) (rwidth bounds))
                          (stepFrom (multiply (floor qy) spacing) spacing j))
                   (gridLineStyle style j)) /\
         lessThanOrEqual (stepFrom (multiply (floor qy) spacing) spacing j)
                         (add (ry bounds) (rheight bounds)) = true) /\
      lessThanOrEqual (stepFrom (multiply (floor qy) spacing) spacing (length hs))
                      (add (ry bounds) (rheight bounds)) = false) /\
    (forall major n i,
        majorLineStyle style = Some major ->
        majorLineInterval style = Some (S n) ->
        gridLineStyle style (i * S n) = major).
Proof.
  intros FM fuel toWorld viewport spacing style cs H.
  split; [|intros major n i; apply gridLineStyle_major].
  unfold drawGrid in H. cbn [negb] in H.
  destruct (getViewBounds toWorld viewport) as [bounds|] eqn:Eb; [|discriminate].
  unfold runBind at 1 in H. unfold runOf, lift in H. cbn [fst snd] in H.
  destruct (divide (rx bounds) spacing) as [qx|] eqn:Ex; [|discriminate].
  cbn [ofOption runBind] in H.
  destruct (divide (ry bounds) spacing) as [qy|] eqn:Ey; [|discriminate].
  cbn [ofOption runBind] in H.
  destruct (verticalLines fuel bounds spacing (add (rx bounds) (rwidth bounds)) style
              (multiply (floor qx) spacing) 0) as [vs rv] eqn:Ev.
  destruct rv as [[[]|]|]; try discriminate.
  destruct (horizontalLines fuel bounds spacing (add (ry bounds) (rheight bounds)) style
              (multiply (floor qy) spacing) 0) as [hs rh] eqn:Eh.
  cbn in H. injection H as <- ->.
  destruct (verticalLines_trace _ _ _ _ _ _ _ _ Ev) as [V1 V2].
  destruct (horizontalLines_trace _ _ _ _ _ _ _ _ Eh) as [H1 H2].
  exists bounds, qx, qy, vs, hs.
  do 4 (split; [first [reflexivity|assumption]|]).
  split; [exact V1|]. split; [exact V2|]. split; [exact H1|exact H2].
Qed.

Lemma grid_lines_witness :
  exists bounds vs hs,
    getViewBounds baseScreenToWorld gridViewport = Done bounds /\
    fst (@drawGrid QcFixed 20 true baseScreenToWorld gridViewport 1%Qc plainGrid) = vs ++ hs /\
    lessThanOrEqual (stepFrom (multiply (floor (rx bounds / 1)%Qc) 1%Qc) 1%Qc (length vs))
                    (add (rx bounds) (rwidth bounds)) = false.
Proof.
  assert (E : @drawGrid QcFixed 20 true baseScreenToWorld gridViewport 1%Qc plainGrid
              = (fst (@drawGrid QcFixed 20 true baseScreenToWorld gridViewport 1%Qc plainGrid),
                 Some (Done tt))).
  { rewrite (surjective_pairing
               (@drawGrid QcFixed 20 true baseScreenToWorld gridViewport 1%Qc plainGrid)) at 1.
    f_equal. }
  destruct (grid_lines QcFixed 20%nat baseScreenToWorld gridViewport 1%Qc plainGrid _ E)
    as [[bounds [qx [qy [vs [hs [Hb [Hx [Hy [Hcs [_ [V2 _]]]]]]]]]]] _].
  exists bounds, vs, hs. split; [exact Hb|]. split; [exact Hcs|].
  injection Hx as <-. exact V2.
Defined.

(** ** Registries *)

From Stdlib Require Import Sorted Permutation.

Section MapLemmas.
Variable V : Type.
Implicit Types (m : list (String.string * V)) (k : String.string) (v : V).

Lemma mapGet_None m k : mapGet k m = None <-> ~ In k (mapKeys m).
Proof.
  induction m as [|[k' v'] m IH]; simpl.
  - split; [intros _ []|reflexivity].
  - destruct (String.eqb k k') eqn:E.
    + apply String.eqb_eq in E. subst. split; [discriminate|]. intro H. exfalso. apply H. now left.
    + apply String.eqb_neq in E. rewrite IH. split.
      * intros H [H1|H1]; [congruence|contradiction].
      * intros H H1. apply H. now right.
Qed.

Lemma mapGet_In m k v : mapGet k m = Some v -> In (k, v) m.
Proof.
  induction m as [|[k' v'] m IH]; simpl; [discriminate|].
  destruct (String.eqb k k') eqn:E.
  - apply String.eqb_eq in E. subst. intro H. injection H as ->. now left.
  - intro H. right. now apply IH.
Qed.

Lemma mapGet_mapSet_same m k v : mapGet k (mapSet k v m) = Some v.
Proof.
  induction m as [|[k' v'] m IH]; simpl.
  - now rewrite String.eqb_refl.
  - destruct (String.eqb k k') eqn:E; simpl.
    + now rewrite String.eqb_refl.
    + now rewrite E.
Qed.

Lemma mapGet_mapSet_other m k k' v : k <> k' -> mapGet k' (mapSet k v m) = mapGet k' m.
Proof.
  intro N. induction m as [|[k0 v0] m IH]; simpl.
  - apply not_eq_sym in N. apply String.eqb_neq in N. now rewrite N.
  - destruct (String.eqb k k0) eqn:E; simpl.
    + apply String.eqb_eq in E. subst k0.
      apply not_eq_sym in N. apply String.eqb_neq in N. now rewrite N.
    + destruct (String.eqb k' k0); [reflexivity|exact IH].
Qed.

Lemma mapSet_absent m k v : mapGet k m = None -> mapSet k v m = m ++ [(k, v)].
Proof.
  induction m as [|[k' v'] m IH]; simpl; [reflexivity|].
  destruct (String.eqb k k'); [discriminate|]. intro H. now rewrite IH.
Qed.

Lemma mapKeys_mapSet_present m k v v0 :
  mapGet k m = Some v0 -> mapKeys (mapSet k v m) = mapKeys m.
Proof.
  induction m as [|[k' v'] m IH]; simpl; [discriminate|].
  destruct (String.eqb k k') eqn:E; simpl.
  - apply String.eqb_eq in E. now subst.
  - intro H. f_equal. now apply IH.
Qed.

Lemma mapSet_In m k v k' v' :
  In (k', v') (mapSet k v m) -> (k' = k /\ v' = v) \/ In (k', v') m.
Proof.
  induction m as [|[k0 v0] m IH]; simpl.
  - intros [H|[]]. injection H as <- <-. now left.
  - destruct (String.eqb k k0) eqn:E; simpl.
    + intros [H|H]; [injection H as <- <-; now left|right; now right].
    + intros [H|H]; [right; now left|].
      destruct (IH H) as [H1|H1]; [now left|right; now right].
Qed.

Lemma mapDelete_In m k k' v' : In (k', v') (mapDelete k m) -> In (k', v') m.
Proof.
  induction m as [|[k0 v0] m IH]; simpl; [intros []|].
  destruct (String.eqb k k0); simpl.
  - intro H. now right.
  - intros [H|H]; [now left|right; now apply IH].
Qed.

Lemma mapKeys_mapDelete_In m k k' : In k' (mapKeys (mapDelete k m)) -> In k' (mapKeys m).
Proof.
  unfold mapKeys. intro H. apply in_map_iff in H. destruct H as [[k0 v0] [E H]].
  simpl in E. subst k0. apply mapDelete_In in H.
  apply in_map_iff. exists (k', v0). now split.
Qed.

Lemma mapDelete_NoDup m k : NoDup (mapKeys m) -> NoDup (mapKeys (mapDelete k m)).
Proof.
  induction m as [|[k0 v0] m IH]; simpl; intro H; [constructor|].
  inversion H as [|? ? Hn Hd]; subst.
  destruct (String.eqb k k0); [exact Hd|]. simpl. constructor.
  - intro Hin. apply Hn. now apply (mapKeys_mapDelete_In m k).
  - now apply IH.
Qed.

Lemma mapSet_NoDup m k v : NoDup (mapKeys m) -> NoDup (mapKeys (mapSet k v m)).
Proof.
  intro H. destruct (mapGet k m) as [v0|] eqn:E.
  - now rewrite (mapKeys_mapSet_present m k v v0 E).
  - rewrite (mapSet_absent m k v E). unfold mapKeys. rewrite map_app. simpl.
    apply NoDup_app; [exact H|repeat constructor; intros []|].
    intros x Hx [<-|[]]. apply mapGet_None in E. contradiction.
Qed.

Lemma mapDelete_mapSet_absent m k v : mapGet k m = None -> mapDelete k (mapSet k v m) = m.
Proof.
  induction m as [|[k' v'] m IH]; simpl.
  - now rewrite String.eqb_refl.
  - destruct (String.eqb k k') eqn:E; [discriminate|]. intro H. simpl. rewrite E.
    f_equal. now apply IH.
Qed.

Lemma mapGet_mapDelete_same m k : NoDup (mapKeys m) -> mapGet k (mapDelete k m) = None.
Proof.
  induction m as [|[k' v'] m IH]; simpl; intro H; [reflexivity|].
  inversion H as [|? ? Hn Hd]; subst.
  destruct (String.eqb k k') eqn:E.
  - apply String.eqb_eq in E. subst. now apply mapGet_None.
  - simpl. rewrite E. now apply IH.
Qed.

Lemma mapGet_mapDelete_other m k k' : k <> k' -> mapGet k' (mapDelete k m) = mapGet k' m.
Proof.
  intro N. induction m as [|[k0 v0] m IH]; simpl; [reflexivity|].
  destruct (String.eqb k k0) eqn:E; simpl.
  - apply String.eqb_eq in E. subst k0.
    apply not_eq_sym in N. apply String.eqb_neq in N. now rewrite N.
  - destruct (String.eqb k' k0); [reflexivity|exact IH].
Qed.

End MapLemmas.

Lemma insertByDepth_perm (x : RenderLayer) (l : list RenderLayer) :
  Permutation (insertByDepth x l) (x :: l).
Proof.
  induction l as [|y l IH]; simpl; [apply Permutation_refl|].
  destruct (Qle_bool (depth x) (depth y)); [apply Permutation_refl|].
  apply perm_trans with (y :: x :: l); [now apply perm_skip|apply perm_swap].
Qed.

Lemma sortByDepth_perm (l : list RenderLayer) : Permutation (sortByDepth l) l.
Proof.
  induction l as [|x l IH]; simpl; [constructor|].
  apply perm_trans with (x :: sortByDepth l); [apply insertByDepth_perm|now apply perm_skip].
Qed.

Lemma insertByDepth_hdrel (a x : RenderLayer) (l : list RenderLayer) :
  HdRel depthLe a l -> depthLe a x -> HdRel depthLe a (insertByDepth x l).
Proof.
  intros H Hax. destruct l as [|y l]; simpl; [now constructor|].
  destruct (Qle_bool (depth x) (depth y)); constructor; [exact Hax|].
  now inversion H.
Qed.

Lemma insertByDepth_sorted (x : RenderLayer) (l : list RenderLayer) :
  Sorted depthLe l -> Sorted depthLe (insertByDepth x l).
Proof.
  induction l as [|y l IH]; simpl; intro H.
  - repeat constructor.
  - inversion H as [|? ? Hs Hh]; subst.
    destruct (Qle_bool (depth x) (depth y)) eqn:E.
    + constructor; [exact H|]. constructor. now apply Qle_bool_iff.
    + constructor; [now apply IH|].
      apply insertByDepth_hdrel; [exact Hh|].
      unfold depthLe. apply Qlt_le_weak. apply Qnot_le_lt. intro C.
      apply Qle_bool_iff in C. congruence.
Qed.

Lemma sortByDepth_sorted (l : list RenderLayer) : Sorted depthLe (sortByDepth l).
Proof.
  induction l as [|x l IH]; simpl; [constructor|now apply insertByDepth_sorted].
Qed.

Lemma insertByDepth_filter (d : Q) (x : RenderLayer) (l : list RenderLayer) :
  filter (fun y => Qeq_bool (depth y) d) (insertByDepth x l)
  = filter (fun y => Qeq_bool (depth y) d) (x :: l).
Proof.
  induction l as [|y l IH]; [reflexivity|]. cbn [insertByDepth].
  destruct (Qle_bool (depth x) (depth y)) eqn:E; [reflexivity|].
  cbn [filter] in *. rewrite IH.
  destruct (Qeq_bool (depth x) d) eqn:Ex; [|reflexivity].
  destruct (Qeq_bool (depth y) d) eqn:Ey; [|reflexivity].
  exfalso. apply Qeq_bool_iff in Ex. apply Qeq_bool_iff in Ey.
  assert (C : Qle_bool (depth x) (depth y) = true).
  { apply Qle_bool_iff. rewrite Ex, Ey. apply Qle_refl. }
  congruence.
Qed.

Lemma sortByDepth_stable (d : Q) (l : list RenderLayer) :
  filter (fun y => Qeq_bool (depth y) d) (sortByDepth l)
  = filter (fun y => Qeq_bool (depth y) d) l.
Proof.
  induction l as [|x l IH]; [reflexivity|].
  cbn [sortByDepth fold_right]. rewrite insertByDepth_filter.
  cbn [filter]. fold (sortByDepth l). now rewrite IH.
Qed.

(** X24: getLayers returns the stored layers, each once, by non-decreasing
    depth, and the layers of one depth in the order they were stored. *)
Theorem getLayers_sorted :
  forall (layers : LayerMap),
    Permutation (getLayers layers) (mapValues layers) /\
    Sorted depthLe (getLayers layers) /\
    forall d, filter (fun l => Qeq_bool (depth l) d) (getLayers layers)
              = filter (fun l => Qeq_bool (depth l) d) (mapValues layers).
Proof.
  intro layers. unfold getLayers. split; [apply sortByDepth_perm|].
  split; [apply sortByDepth_sorted|]. intro d. apply sortByDepth_stable.
Qed.

Lemma applyLayerOp_wellKeyed (layers : LayerMap) (op : LayerOp) :
  layersWellKeyed layers -> layersWellKeyed (applyLayerOp layers op).
Proof.
  intros [Hn Hk]. destruct op as [id d|id|id shown|id d]; simpl.
  - split; [now apply mapSet_NoDup|].
    intros k l H. apply mapSet_In in H. destruct H as [[-> ->]|H]; [reflexivity|now apply Hk].
  - unfold removeLayer. destruct (mapGet id layers) eqn:E; simpl; [|now split].
    split; [now apply mapDelete_NoDup|].
    intros k l H. apply mapDelete_In in H. now apply Hk.
  - unfold setLayerVisible. destruct (mapGet id layers) as [l0|] eqn:E; simpl; [|now split].
    split; [now apply mapSet_NoDup|].
    intros k l H. apply mapSet_In in H. destruct H as [[-> ->]|H]; [|now apply Hk].
    simpl. apply Hk. now apply mapGet_In.
  - unfold setLayerDepth. destruct (mapGet id layers) as [l0|] eqn:E; simpl; [|now split].
    split; [now apply mapSet_NoDup|].
    intros k l H. apply mapSet_In in H. destruct H as [[-> ->]|H]; [|now apply Hk].
    simpl. apply Hk. now apply mapGet_In.
Qed.

Lemma layerOps_wellKeyed (ops : list LayerOp) :
  forall layers, layersWellKeyed layers -> layersWellKeyed (fold_left applyLayerOp ops layers).
Proof.
  induction ops as [|op ops IH]; intros layers H; simpl; [exact H|].
  apply IH. now apply applyLayerOp_wellKeyed.
Qed.

Lemma wellKeyed_ids (layers : LayerMap) :
  layersWellKeyed layers -> map layerId (mapValues layers) = mapKeys layers.
Proof.
  intros [_ Hk]. unfold mapValues, mapKeys. rewrite map_map.
  apply map_ext_in. intros [k l] H. simpl. now apply Hk.
Qed.

(** X25: starting without layers, after any calls of createLayer,
    removeLayer, setLayerVisible and setLayerDepth every layer is stored
    under its own id and no id is stored twice; so getLayers never returns
    two layers with the same id. *)
Theorem layers_keep_distinct_ids :
  forall (ops : list LayerOp),
    layersWellKeyed (fold_left applyLayerOp ops []) /\
    NoDup (map layerId (getLayers (fold_left applyLayerOp ops []))).
Proof.
  intro ops.
  assert (W : layersWellKeyed (fold_left applyLayerOp ops [])).
  { apply layerOps_wellKeyed. split; [constructor|intros k l []]. }
  split; [exact W|].
  apply (Permutation_NoDup (l := map layerId (mapValues (fold_left applyLayerOp ops [])))).
  - apply Permutation_map. apply Permutation_sym. apply sortByDepth_perm.
  - rewrite (wellKeyed_ids _ W). apply W.
Qed.

(** X26: createLayer stores a visible layer with the given depth under the
    id and leaves the layers of other ids as they are; it is among the
    layers getLayers returns.  On an id already in use it replaces the
    layer, which is visible again, without changing the number of layers;
    on a new id there is one layer more. *)
Theorem createLayer_stores :
  forall (layers : LayerMap) (id : String.string) (d : Q),
    mapGet id (fst (fst (createLayer layers id d))) = Some (mkLayer id d true) /\
    (forall k, k <> id ->
       mapGet k (fst (fst (createLayer layers id d))) = mapGet k layers) /\
    In (mkLayer id d true) (getLayers (fst (fst (createLayer layers id d)))) /\
    (forall old, mapGet id layers = Some old ->
       length (fst (fst (createLayer layers id d))) = length layers) /\
    (mapGet id layers = None ->
       length (fst (fst (createLayer layers id d))) = S (length layers)).
Proof.
  intros layers id d. unfold createLayer. cbn [fst].
  split; [apply mapGet_mapSet_same|].
  split; [intros k N; apply mapGet_mapSet_other; congruence|].
  split.
  - apply (Permutation_in (l := mapValues (mapSet id (mkLayer id d true) layers))).
    + apply Permutation_sym. apply sortByDepth_perm.
    + unfold mapValues. apply in_map_iff. exists (id, mkLayer id d true).
      split; [reflexivity|]. apply mapGet_In. apply mapGet_mapSet_same.
  - split.
    + intros old H.
      pose proof (mapKeys_mapSet_present _ layers id (mkLayer id d true) old H) as K.
      apply (f_equal (@length _)) in K. unfold mapKeys in K. now rewrite !length_map in K.
    + intro H. rewrite (mapSet_absent _ layers id (mkLayer id d true) H).
      rewrite length_app. simpl. lia.
Qed.

(** X27: removeLayer, setLayerVisible and setLayerDepth on an id that is
    not stored change nothing and notify nothing.  On a stored id
    setLayerVisible and setLayerDepth change that one field of that one
    layer and notify once. *)
Theorem layer_updates :
  forall (layers : LayerMap) (id : String.string) (shown : bool) (d : Q),
    (mapGet id layers = None ->
     removeLayer layers id = (layers, []) /\
     setLayerVisible layers id shown = (layers, []) /\
     setLayerDepth layers id d = (layers, [])) /\
    (forall l, mapGet id layers = Some l ->
     mapGet id (fst (setLayerVisible layers id shown))
       = Some (mkLayer (layerId l) (depth l) shown) /\
     snd (setLayerVisible layers id shown) = [LayerVisibilityChanged id shown] /\
     mapGet id (fst (setLayerDepth layers id d))
       = Some (mkLayer (layerId l) d (visible l)) /\
     snd (setLayerDepth layers id d) = [LayerDepthChanged id d] /\
     forall k, k <> id ->
       mapGet k (fst (setLayerVisible layers id shown)) = mapGet k layers /\
       mapGet k (fst (setLayerDepth layers id d)) = mapGet k layers).
Proof.
  intros layers id shown d. split.
  - intro H. unfold removeLayer, setLayerVisible, setLayerDepth. rewrite H.
    repeat split; reflexivity.
  - intros l H. unfold setLayerVisible, setLayerDepth. rewrite H. cbn [fst snd].
    split; [apply mapGet_mapSet_same|]. split; [reflexivity|].
    split; [apply mapGet_mapSet_same|]. split; [reflexivity|].
    intros k N. split; apply mapGet_mapSet_other; congruence.
Qed.

Lemma createLayer_stores_witness :
  length (fst (fst (createLayer sampleLayers uiId 5))) = length sampleLayers /\
  mapGet uiId (fst (fst (createLayer sampleLayers uiId 5))) = Some (mkLayer uiId 5 true).
Proof.
  destruct (createLayer_stores sampleLayers uiId 5) as [H1 [_ [_ [H2 _]]]].
  split; [|exact H1].
  apply (H2 (mkLayer uiId 10 false)). reflexivity.
Defined.

Lemma layer_updates_witness :
  removeLayer [] uiId = ([], []) /\
  mapGet uiId (fst (setLayerVisible sampleLayers uiId true))
  = Some (mkLayer uiId 10 true).
Proof.
  destruct (layer_updates [] uiId true 0) as [H _].
  destruct (H eq_refl) as [H1 _].
  destruct (layer_updates sampleLayers uiId true 0) as [_ H2].
  destruct (H2 (mkLayer uiId 10 false) eq_refl) as [H3 _].
  split; [exact H1|exact H3].
Defined.

Lemma lightId_inj (n m : nat) : lightId n = lightId m -> n = m.
Proof.
  unfold lightId. intro H. cbn [String.append] in H.
  injection H as H.
  apply (f_equal DecimalString.NilEmpty.uint_of_string) in H.
  rewrite !DecimalString.NilEmpty.usu in H. injection H as H.
  now apply DecimalNat.Unsigned.to_uint_inj.
Qed.

Lemma mapKeys_mapSet_In (V : Type) (m : list (String.string * V)) (k k' : String.string)
    (v : V) :
  In k' (mapKeys (mapSet k v m)) -> k' = k \/ In k' (mapKeys m).
Proof.
  unfold mapKeys. intro H. apply in_map_iff in H. destruct H as [[k0 v0] [E H]].
  simpl in E. subst k0. apply mapSet_In in H. destruct H as [[-> _]|H]; [now left|].
  right. apply in_map_iff. exists (k', v0). now split.
Qed.

Section LightRuns.
Context {FM : FixedMath}.

Lemma lightsTracked_fresh (st : LightStore) (returned : list String.string) :
  lightsTracked st returned -> ~ In (lightId (lightIdCounter st)) returned.
Proof.
  intros [_ [H _]] Hin. destruct (H _ Hin) as [n [Hn E]].
  apply lightId_inj in E. lia.
Qed.

Lemma runLightOps_tracked (ops : list LightOp) :
  forall st returned,
    lightsTracked st returned ->
    lightsTracked (fst (runLightOps st returned ops)) (snd (runLightOps st returned ops)).
Proof.
  induction ops as [|op ops IH]; intros st returned T; [exact T|].
  destruct op as [light|id|id config]; cbn [runLightOps addLight]; apply IH.
  - pose proof (lightsTracked_fresh st returned T) as F.
    destruct T as [T1 [T2 T3]]. split; [|split].
    + cbn [lights]. intros k H. apply mapKeys_mapSet_In in H.
      destruct H as [->|H]; [now left|right; now apply T1].
    + cbn [lightIdCounter]. intros k [<-|H].
      * exists (lightIdCounter st). split; [lia|reflexivity].
      * destruct (T2 k H) as [n [Hn E]]. exists n. split; [lia|exact E].
    + now constructor.
  - unfold removeLight. destruct (mapGet id (lights st)) eqn:E; [|exact T].
    destruct T as [T1 [T2 T3]]. split; [|split; [exact T2|exact T3]].
    cbn [fst lights]. intros k H. apply T1. now apply (mapKeys_mapDelete_In _ _ id).
  - unfold updateLight. destruct (mapGet id (lights st)) as [existing|] eqn:E; [|exact T].
    destruct T as [T1 [T2 T3]]. split; [|split; [exact T2|exact T3]].
    cbn [fst lights]. intros k H.
    rewrite (mapKeys_mapSet_present _ _ _ _ existing E) in H. now apply T1.
Qed.

End LightRuns.

(** X28: starting without lights, after any calls of addLight, removeLight
    and updateLight, the ids addLight has returned are pairwise distinct,
    every light in the table is stored under one of them, and the next
    addLight returns an id that is not in the table and was never returned
    before, also not for a light removed since. *)
Theorem light_ids_fresh :
  forall (FM : FixedMath) (ops : list LightOp) (light : LightConfig),
    NoDup (snd (runLightOps noLights [] ops)) /\
    (forall k, In k (mapKeys (lights (fst (runLightOps noLights [] ops)))) ->
               In k (snd (runLightOps noLights [] ops))) /\
    ~ In (snd (fst (addLight (fst (runLightOps noLights [] ops)) light)))
         (snd (runLightOps noLights [] ops)) /\
    mapGet (snd (fst (addLight (fst (runLightOps noLights [] ops)) light)))
           (lights (fst (runLightOps noLights [] ops))) = None.
Proof.
  intros FM ops light.
  assert (T : lightsTracked (fst (runLightOps noLights [] ops))
                            (snd (runLightOps noLights [] ops))).
  { apply runLightOps_tracked. split; [intros k []|]. split; [intros k []|constructor]. }
  pose proof (lightsTracked_fresh _ _ T) as F.
  destruct T as [T1 [T2 T3]].
  split; [exact T3|]. split; [exact T1|]. split; [exact F|].
  apply mapGet_None. intro H. apply F. now apply T1.
Qed.

Lemma light_ids_fresh_witness :
  ~ In (snd (fst (addLight
                    (fst (runLightOps noLights []
                            [AddLight sampleLight; RemoveLight (lightId 0);
                             AddLight sampleLight]))
                    sampleLight)))
       (snd (runLightOps noLights []
               [AddLight sampleLight; RemoveLight (lightId 0); AddLight sampleLight])).
Proof.
  destruct (light_ids_fresh QcFixed
              [AddLight sampleLight; RemoveLight (lightId 0); AddLight sampleLight]
              sampleLight) as [_ [_ [H _]]].
  exact H.
Defined.

(** X29: when the id built from the counter is not in the table, addLight
    stores the light under it as one more entry and leaves the other lights
    as they are; removing that light again gives back the table as it was,
    while the counter stays advanced. *)
Theorem light_added_and_removed :
  forall (FM : FixedMath) (st : LightStore) (light : LightConfig),
    mapGet (lightId (lightIdCounter st)) (lights st) = None ->
    snd (fst (addLight st light)) = lightId (lightIdCounter st) /\
    mapGet (lightId (lightIdCounter st)) (lights (fst (fst (addLight st light))))
      = Some light /\
    length (lights (fst (fst (addLight st light)))) = S (length (lights st)) /\
    (forall k, k <> lightId (lightIdCounter st) ->
       mapGet k (lights (fst (fst (addLight st light)))) = mapGet k (lights st)) /\
    removeLight (fst (fst (addLight st light))) (lightId (lightIdCounter st))
      = (mkLightStore (lights st) (S (lightIdCounter st)),
         [LightRemoved (lightId (lightIdCounter st))]).
Proof.
  intros FM st light H. unfold addLight. cbn [fst snd lights lightIdCounter].
  split; [reflexivity|]. split; [apply mapGet_mapSet_same|]. split.
  - rewrite (mapSet_absent _ _ _ _ H), length_app. simpl. lia.
  - split; [intros k N; apply mapGet_mapSet_other; congruence|].
    unfold removeLight. cbn [lights lightIdCounter].
    rewrite mapGet_mapSet_same, (mapDelete_mapSet_absent _ _ _ _ H). reflexivity.
Qed.

Lemma light_added_and_removed_witness :
  removeLight (fst (fst (addLight noLights sampleLight))) (lightId 0)
  = (mkLightStore [] 1, [LightRemoved (lightId 0)]).
Proof.
  destruct (light_added_and_removed QcFixed noLights sampleLight eq_refl)
    as [_ [_ [_ [_ H]]]].
  exact H.
Defined.

(** ** Configuration patches *)

Section SpreadLemmas.
Variable V : Type.

Lemma spread_get (b : list (String.string * V)) :
  NoDup (mapKeys b) ->
  forall a k,
    mapGet k (spread a b) = match mapGet k b with
                            | Some v => Some v
                            | None => mapGet k a
                            end.
Proof.
  unfold spread. induction b as [|[k0 v0] b IH]; intros Hn a k; [reflexivity|].
  inversion Hn as [|? ? Hnot Hd]; subst. cbn [fold_left fst snd].
  rewrite (IH Hd). cbn [mapGet].
  destruct (String.eqb k k0) eqn:E.
  - apply String.eqb_eq in E. subst k0.
    assert (N : mapGet k b = None) by now apply mapGet_None.
    rewrite N. apply mapGet_mapSet_same.
  - destruct (mapGet k b); [reflexivity|].
    apply mapGet_mapSet_other. apply String.eqb_neq in E. congruence.
Qed.

End SpreadLemmas.

(** X30: setDebugConfig and setPhysicsDebugConfig keep every key the patch
    does not mention and take the others from the patch.  The colour table
    is not merged: when the patch has one, the table of the configuration
    becomes the table of the patch, and a colour that only the old table
    had is lost. *)
Theorem config_patch_replaces_colors :
  forall (FM : FixedMath) (old config : ConfigObject),
    NoDup (mapKeys (scalars config)) ->
    setPhysicsDebugConfig old config = setDebugConfig old config /\
    (forall k,
       mapGet k (scalars (setDebugConfig old config))
       = match mapGet k (scalars config) with
         | Some v => Some v
         | None => mapGet k (scalars old)
         end) /\
    (colorsEntry config = ColorsAbsent ->
     colorsEntry (setDebugConfig old config) = colorsEntry old) /\
    (forall c, colorsEntry config = ColorsTable c -> NoDup (mapKeys c) ->
       forall k,
         mapGet k (tableOf (colorsEntry (setDebugConfig old config))) = mapGet k c).
Proof.
  intros FM old config Hn. split; [reflexivity|]. split; [|split].
  - intro k. unfold setDebugConfig, spreadConfig.
    destruct (colorsEntry config); cbn [scalars]; now apply spread_get.
  - intro H. unfold setDebugConfig, spreadConfig. rewrite H. reflexivity.
  - intros c H Hc k. unfold setDebugConfig, spreadConfig. rewrite H.
    cbn [colorsEntry tableOf]. rewrite (spread_get _ c Hc).
    destruct (mapGet k c); reflexivity.
Qed.

Lemma config_patch_replaces_colors_witness :
  mapGet jointLimitKey samplePhysicsColors
    = Some (mkColor (8 # 10) (8 # 10) (3 # 10) 1) /\
  mapGet jointLimitKey
    (tableOf (colorsEntry
       (@setPhysicsDebugConfig QcFixed
          (mkConfig [] (ColorsTable samplePhysicsColors))
          (mkConfig [] (ColorsTable samplePatchColors)))))
    = None.
Proof.
  split; [reflexivity|].
  destruct (config_patch_replaces_colors QcFixed
              (mkConfig [] (ColorsTable samplePhysicsColors))
              (mkConfig [] (ColorsTable samplePatchColors)) (NoDup_nil _))
    as [E [_ [_ H]]].
  rewrite E. rewrite (H samplePatchColors eq_refl).
  - reflexivity.
  - repeat constructor. intros [].
Defined.
